(** * DVDScreensaver: the geometry of the bouncing logo

  A shallow embedding of [src/DVDScreensaver.jsx]: the vector helpers
  ([clamp], [length], [normalize], [dot], [angleBetween]), one tick of
  the animation loop ([animate]) and the key handler ([handleKey]),
  followed by the properties of the geometry engine, the corner detector,
  the angle diagnostic, the debug overlay and the keyboard.

  Numbers.  The component is modelled in exact arithmetic (module [DVD]):
  a JavaScript number is a real number, and the two operations of the
  source that leave the finite numbers on part of their domain, [/] on a
  zero divisor and [Math.acos] outside [-1, 1], are partial: they return
  [None] where JavaScript yields [NaN] or an infinity.  The motion, the
  corner detector and the choice of the vertex only compare, add and
  negate, and are read off this model.

  The angle computation divides, multiplies and takes a square root and
  an arc cosine, all of which binary64 rounds.  It is modelled twice
  more: with every rounded result left to an arbitrary function (module
  [Rounded], of which the exact model is one instance), and in binary64
  itself on the kernel's floating-point numbers (module [Binary64]),
  where the cosine handed to [Math.acos] is computed bit for bit. *)

From Stdlib Require Import Reals Lra Lia List String Bool ZArith DecimalString.
From Stdlib Require PrimFloat FloatOps SpecFloat.
Import ListNotations.

Local Open Scope R_scope.

(** ** The JavaScript operations the component uses *)

Module JS.

(** [a <= b], [a >= b], [a < b], [a > b] and [a === b] on numbers. *)
Definition leb (a b : R) : bool := if Rle_dec a b then true else false.
Definition geb (a b : R) : bool := if Rge_dec a b then true else false.
Definition ltb (a b : R) : bool := if Rlt_dec a b then true else false.
Definition gtb (a b : R) : bool := if Rgt_dec a b then true else false.
Definition eqb (a b : R) : bool := if Req_dec_T a b then true else false.

(** [a / b]: not a finite number when [b] is zero. *)
Definition div (a b : R) : option R :=
  if eqb b 0 then None else Some (a / b).

(** [Math.acos]: [NaN] outside [-1, 1]. *)
Definition acos (d : R) : option R :=
  if leb (-1) d && leb d 1 then Some (Ratan.acos d) else None.

(** [Math.hypot], [Math.abs], [Math.max], [Math.min]. *)
Definition hypot (x y : R) : R := sqrt (x * x + y * y).
Definition abs (x : R) : R := Rabs x.
Definition max (a b : R) : R := Rmax a b.
Definition min (a b : R) : R := Rmin a b.

(** [x.toFixed(1)] on a finite number, after Number.prototype.toFixed:
    the sign is set apart; [n] is the integer for which [n / 10 - x] is
    closest to zero, the larger one on a tie; its decimal digits, padded
    to two with a zero, are split before the last one by a point.  From
    10^21 on JavaScript switches to the exponent notation, which is not
    modelled: [None]. *)
Definition toFixed1 (x : R) : option string :=
  let s := if ltb x 0 then "-"%string else ""%string in
  let x := if ltb x 0 then - x else x in
  if geb x (10 ^ 21) then None
  else
    let n := (up (x * 10 + / 2) - 1)%Z in
    let m := NilZero.string_of_uint (N.to_uint (Z.to_N n)) in
    let m := if Nat.leb (String.length m) 1 then ("0" ++ m)%string else m in
    let k := String.length m in
    Some (s ++ substring 0 (k - 1) m ++ "." ++ substring (k - 1) 1 m)%string.

(** Sequencing of computations that may leave the finite numbers. *)
Definition bind {A B : Type} (m : option A) (k : A -> option B) : option B :=
  match m with
  | Some a => k a
  | None => None
  end.

End JS.

Notation "x <- m ;; k" := (JS.bind m (fun x => k))
  (at level 61, m at next level, right associativity).

(** ** Constants (lines 7-13) *)

Module DVD.

Definition SPEED : R := 0.75.
Definition LOGO_WIDTH : R := 200.
Definition LOGO_ASPECT_RATIO : R := 744 / 300.
Definition LOGO_HEIGHT : R := LOGO_WIDTH / LOGO_ASPECT_RATIO.
Definition CORNER_THRESHOLD : R := 6.

(** ** Vectors and the helpers of lines 18-42 *)

Record Vec : Type := mkVec { vx : R; vy : R }.

Definition clamp (v min max : R) : R := JS.max min (JS.min max v).

Definition length (x y : R) : R := JS.hypot x y.

Definition normalize (x y : R) : option Vec :=
  let m := length x y in
  if JS.eqb m 0 then Some (mkVec 0 0)
  else
    nx <- JS.div x m ;;
    ny <- JS.div y m ;;
    Some (mkVec nx ny).

Definition dot (ax ay bx by_ : R) : R := ax * bx + ay * by_.

Definition angleBetween (ax ay bx by_ : R) : option R :=
  a <- normalize ax ay ;;
  b <- normalize bx by_ ;;
  let d := clamp (dot (vx a) (vy a) (vx b) (vy b)) (-1) 1 in
  JS.acos d.

(** ** The component's state (lines 51-63)

    [containerSize] and [debug] are React state that the tick only reads;
    [posRef], [dirRef] and [lastBounceTimeRef] are the mutable refs of the
    loop; [renderPos] and [debugLines] are the React state the tick sets. *)

Record Size : Type := mkSize { width : R; height : R }.

(** The shapes of the debug overlay.  The text of a label is [None] where
    the model does not determine it: the angle is not a finite number, or
    [toFixed] leaves the decimal notation. *)
Inductive Shape : Type :=
| line (x1 y1 x2 y2 : R) (color : string) (lineWidth : R) (dash : option string)
| text (x y : R) (label : option string) (fill : string).

Record State : Type := mkState {
  posRef : Vec;
  dirRef : Vec;
  lastBounceTimeRef : R;
  renderPos : Vec;
  debugLines : list Shape
}.

(** What a tick reads and does not write: the two React states above, the
    [debugLines] captured by the closure of the effect, and the clock
    ([performance.now()]). *)
Record Env : Type := mkEnv {
  containerSize : Size;
  debug : bool;
  closureDebugLines : list Shape;
  now : R
}.

(** The argument of a [confetti] call.  The two fractions of [origin] come
    out of a division by the measured size of the container. *)
Record Origin : Type := mkOrigin { ox : option R; oy : option R }.

Record Confetti : Type := mkConfetti {
  particleCount : R;
  spread : R;
  origin : Origin
}.

(** The state at mount (lines 55-62). *)
Definition initialState : State :=
  mkState (mkVec 150 150) (mkVec 1 1) 0 (mkVec 150 150) [].

(** ** One tick, [animate], phase by phase *)

(** Lines 96-97. *)
Definition maxX (size : Size) : R := width size - LOGO_WIDTH.
Definition maxY (size : Size) : R := height size - LOGO_HEIGHT.

(** Lines 99-106, "Avance": the tentative position. *)
Definition advance (pos dir : Vec) : Vec :=
  let x := vx pos in
  let y := vy pos in
  let dx := vx dir in
  let dy := vy dir in
  let x := x + dx * SPEED in
  let y := y + dy * SPEED in
  mkVec x y.

(** Lines 109-127, "Rebonds": from the tentative position and the velocity
    to the resolved position, the new velocity and the [bounced] flag. *)
Definition rebound (maxX maxY : R) (p dir : Vec) : Vec * Vec * bool :=
  let x := vx p in
  let y := vy p in
  let dx := vx dir in
  let dy := vy dir in
  let bounced := false in
  let '(x, dx, bounced) :=
    if JS.leb x 0 then (0, dx * -1, true)
    else if JS.geb x maxX then (maxX, dx * -1, true)
    else (x, dx, bounced) in
  let '(y, dy, bounced) :=
    if JS.leb y 0 then (0, dy * -1, true)
    else if JS.geb y maxY then (maxY, dy * -1, true)
    else (y, dy, bounced) in
  (mkVec x y, mkVec dx dy, bounced).

(** Lines 137-142. *)
Definition corners (maxX maxY : R) : list Vec :=
  [ mkVec 0 0; mkVec maxX 0; mkVec 0 maxY; mkVec maxX maxY ].

(** Lines 146-148. *)
Definition nearCorner (x y : R) (c : Vec) : bool :=
  JS.leb (JS.abs (x - vx c)) CORNER_THRESHOLD &&
  JS.leb (JS.abs (y - vy c)) CORNER_THRESHOLD.

(** Lines 150-157: the call made for corner [c]. *)
Definition burst (size : Size) (c : Vec) : Confetti :=
  mkConfetti 100 60
    (mkOrigin (JS.div (vx c + LOGO_WIDTH / 2) (width size))
              (JS.div (vy c + LOGO_HEIGHT / 2) (height size))).

(** Lines 145-159: the loop over the corners, as the list of the calls it
    makes, in order. *)
Definition bursts (size : Size) (x y : R) : list Confetti :=
  flat_map (fun c => if nearCorner x y c then [burst size c] else [])
           (corners (maxX size) (maxY size)).

(** Lines 165-184: the vertex of the logo ([sourceLogo]) and the corner of
    the viewport ([targetScreen]) chosen from the signs of the velocity. *)
Definition leading (size : Size) (x y dx dy : R) : Vec * Vec :=
  if JS.gtb dx 0 && JS.gtb dy 0 then
    (mkVec (x + LOGO_WIDTH) (y + LOGO_HEIGHT), mkVec (width size) (height size))
  else if JS.gtb dx 0 && JS.ltb dy 0 then
    (mkVec (x + LOGO_WIDTH) y, mkVec (width size) 0)
  else if JS.ltb dx 0 && JS.gtb dy 0 then
    (mkVec x (y + LOGO_HEIGHT), mkVec 0 (height size))
  else
    (mkVec x y, mkVec 0 0).

(** Lines 187-190: the angle [a] between the velocity and the vector from
    the chosen vertex to the chosen corner. *)
Definition diagnosticAngle (size : Size) (x y dx dy : R) : option R :=
  let '(sourceLogo, targetScreen) := leading size x y dx dy in
  let vx_ := vx targetScreen - vx sourceLogo in
  let vy_ := vy targetScreen - vy sourceLogo in
  angleBetween dx dy vx_ vy_.

(** Line 191. *)
Definition toDegrees (a : R) : R := (a * 180) / PI.

(** Line 192. *)
Definition DEG8 : R := (8 * PI) / 180.

(** Line 211: [aDeg.toFixed(1)] followed by the degree sign. *)
Definition degreeLabel (aDeg : R) : option string :=
  option_map (fun digits => (digits ++ "°")%string) (JS.toFixed1 aDeg).

(** Lines 162-225: the shapes collected in [dbg]. *)
Definition diagnostic (size : Size) (x y dx dy : R) : list Shape :=
  let '(sourceLogo, targetScreen) := leading size x y dx dy in
  let a := diagnosticAngle size x y dx dy in
  let aDeg := option_map toDegrees a in
  let label := shown <- aDeg ;; degreeLabel shown in
  let inCone :=
    match a with
    | Some a => JS.ltb a DEG8
    | None => false
    end in
  [ line (vx sourceLogo) (vy sourceLogo) (vx targetScreen) (vy targetScreen)
      (if inCone then "orange" else "gray") 1 (Some "5,5");
    text ((vx sourceLogo + vx targetScreen) / 2)
      ((vy sourceLogo + vy targetScreen) / 2 - 5)
      label (if inCone then "orange" else "lightgray");
    line (vx sourceLogo) (vy sourceLogo)
      (vx sourceLogo + dx * 300) (vy sourceLogo + dy * 300)
      "lime" 2 None ]%string.

(** Lines 95-239: the whole tick.  It returns the next state and the
    [confetti] calls it made.  The re-scheduling of line 238 is the caller's:
    a run of the loop is an iteration of [animate]. *)
Definition animate (env : Env) (s : State) : State * list Confetti :=
  let size := containerSize env in
  let '(pos, dir, bounced) :=
    rebound (maxX size) (maxY size) (advance (posRef s) (dirRef s)) (dirRef s) in
  let lastBounce := if bounced then now env else lastBounceTimeRef s in
  let x := vx pos in
  let y := vy pos in
  let dx := vx dir in
  let dy := vy dir in
  let calls := bursts size x y in
  let dbg := diagnostic size x y dx dy in
  let lines :=
    if debug env then dbg
    else match closureDebugLines env with
         | [] => debugLines s
         | _ :: _ => []
         end in
  (mkState (mkVec x y) (mkVec dx dy) lastBounce (mkVec x y) lines, calls).

(** A run of the loop: the state at mount, then ticks, each under whatever
    size, debug flag and clock the host shows at that frame. *)
Inductive reachable : State -> Prop :=
| reachable_mount : reachable initialState
| reachable_tick env s : reachable s -> reachable (fst (animate env s)).


(** ** The key handler (lines 78-88)

    [handleKey] takes the pressed key and the [debug] flag, and gives the
    flag after the event together with the [confetti] calls made. *)
Definition handleKey (key : string) (debug : bool) : bool * list Confetti :=
  if String.eqb key "c" then
    (debug, [mkConfetti 100 70 (mkOrigin (Some 0.5) (Some 0.5))])
  else if String.eqb key "d" then
    (negb debug, [])
  else
    (debug, []).

(** A sequence of key presses, handled one after the other. *)
Fixpoint handleKeys (keys : list string) (debug : bool) : bool * list Confetti :=
  match keys with
  | [] => (debug, [])
  | key :: rest =>
      let '(debug1, calls1) := handleKey key debug in
      let '(debug2, calls2) := handleKeys rest debug1 in
      (debug2, calls1 ++ calls2)
  end.

(** ** The vocabulary of the specification *)

(** A velocity component changes sign: before and after are of strictly
    opposite signs. *)
Definition changesSign (before after : R) : Prop := before * after < 0.

(** What [normalize] computes when neither of its divisions fails. *)
Definition unitVector (x y : R) : Vec :=
  if JS.eqb (length x y) 0 then mkVec 0 0
  else mkVec (x / length x y) (y / length x y).

(** The sign of a velocity component. *)
Inductive Sign : Type := Negative | Zero | Positive.

Definition signOf (d : R) : Sign :=
  if JS.gtb d 0 then Positive else if JS.ltb d 0 then Negative else Zero.

(** The four vertices of a box, named as the table of the specification
    names them. *)
Inductive Vertex : Type := TopLeft | TopRight | BottomLeft | BottomRight.

(** The table of the angle diagnostic, row by row; the last row is also the
    default. *)
Definition leadingTable (sx sy : Sign) : Vertex :=
  match sx, sy with
  | Positive, Positive => BottomRight
  | Positive, Negative => TopRight
  | Negative, Positive => BottomLeft
  | _, _ => TopLeft
  end.

(** The vertex [v] of the box whose top-left vertex is [(x, y)] and whose
    extent is [w] by [h]. *)
Definition vertexOf (v : Vertex) (x y w h : R) : Vec :=
  match v with
  | TopLeft => mkVec x y
  | TopRight => mkVec (x + w) y
  | BottomLeft => mkVec x (y + h)
  | BottomRight => mkVec (x + w) (y + h)
  end.

(** The corner [v] of the viewport. *)
Definition viewportCorner (v : Vertex) (size : Size) : Vec :=
  match v with
  | TopLeft => mkVec 0 0
  | TopRight => mkVec (width size) 0
  | BottomLeft => mkVec 0 (height size)
  | BottomRight => mkVec (width size) (height size)
  end.

End DVD.

Import DVD.

(** ** The angle computation under rounding

    Lines 22-42 again, with the arithmetic of the host left open: [rnd]
    rounds the result of each multiplication, addition and division;
    [hypot] and [acos] stand for [Math.hypot] and [Math.acos], which
    ECMAScript leaves implementation-approximated.  [Math.max] and
    [Math.min], hence [clamp], select one of their arguments and round
    nothing.  Exact arithmetic is the instance where [rnd] is the identity
    and [hypot] and [acos] are the real functions. *)

Module Rounded.

Section Host.

Variable rnd : R -> R.
Variable hypot : R -> R -> R.
Variable acos : R -> R.

Definition div (a b : R) : option R := option_map rnd (JS.div a b).

Definition acosChecked (d : R) : option R :=
  if JS.leb (-1) d && JS.leb d 1 then Some (acos d) else None.

Definition length (x y : R) : R := hypot x y.

Definition normalize (x y : R) : option Vec :=
  let m := length x y in
  if JS.eqb m 0 then Some (mkVec 0 0)
  else
    nx <- div x m ;;
    ny <- div y m ;;
    Some (mkVec nx ny).

Definition dot (ax ay bx by_ : R) : R := rnd (rnd (ax * bx) + rnd (ay * by_)).

Definition angleBetween (ax ay bx by_ : R) : option R :=
  a <- normalize ax ay ;;
  b <- normalize bx by_ ;;
  let d := clamp (dot (vx a) (vy a) (vx b) (vy b)) (-1) 1 in
  acosChecked d.

End Host.

End Rounded.

(** ** The angle computation in binary64

    Lines 18-42 on IEEE 754 binary64 numbers, with the operations of the
    kernel: [*], [+], [/] and the square root are correctly rounded, the
    comparisons are those of IEEE 754.

    [Math.hypot] is taken as the rounded square root of the rounded sum of
    the rounded squares, which is the correctly rounded hypotenuse whenever
    the sum of the squares is itself a binary64 number, as it is at every
    input evaluated below.  [Math.max] and [Math.min] answer [NaN] when an
    argument is [NaN] and order -0 below +0.  [cosine] is the number handed
    to [Math.acos] on line 41; [Math.acos] itself is taken as the exact arc
    cosine of that number, the rounding of its result being left out. *)

Module Binary64.

Import PrimFloat FloatOps SpecFloat.

Local Open Scope float_scope.

Record Vec : Type := mkVec { vx : float; vy : float }.

Definition hypot (x y : float) : float := sqrt (x * x + y * y).

Definition max (a b : float) : float :=
  if is_nan a || is_nan b then nan
  else if b <? a then a
  else if a <? b then b
  else if get_sign a then b else a.

Definition min (a b : float) : float :=
  if is_nan a || is_nan b then nan
  else if a <? b then a
  else if b <? a then b
  else if get_sign a then a else b.

Definition clamp (v min_ max_ : float) : float := max min_ (min max_ v).

Definition length (x y : float) : float := hypot x y.

Definition normalize (x y : float) : Vec :=
  let m := length x y in
  if m =? 0 then mkVec 0 0 else mkVec (x / m) (y / m).

Definition dot (ax ay bx by_ : float) : float := ax * bx + ay * by_.

(** Lines 38-40: the argument of [Math.acos]. *)
Definition cosine (ax ay bx by_ : float) : float :=
  let a := normalize ax ay in
  let b := normalize bx by_ in
  clamp (dot (vx a) (vy a) (vx b) (vy b)) (-1) 1.

(** The real number a binary64 number stands for; [None] for [NaN] and the
    infinities. *)
Definition toReal (f : float) : option R :=
  match Prim2SF f with
  | S754_zero _ => Some 0%R
  | S754_finite s m e =>
      Some ((if s then -1 else 1) * IZR (Zpos m) * powerRZ 2 e)%R
  | _ => None
  end.

Definition angleBetween (ax ay bx by_ : float) : option R :=
  d <- toReal (cosine ax ay bx by_) ;;
  JS.acos d.

End Binary64.

(** ** Comparisons *)

Lemma leb_true (a b : R) : JS.leb a b = true <-> a <= b.
Proof. unfold JS.leb; destruct (Rle_dec a b); split; (congruence || tauto). Qed.

Lemma leb_false (a b : R) : JS.leb a b = false <-> b < a.
Proof.
  unfold JS.leb; destruct (Rle_dec a b); split; intro; try congruence; lra.
Qed.

Lemma geb_true (a b : R) : JS.geb a b = true <-> b <= a.
Proof.
  unfold JS.geb; destruct (Rge_dec a b); split; intro; try congruence; lra.
Qed.

Lemma geb_false (a b : R) : JS.geb a b = false <-> a < b.
Proof.
  unfold JS.geb; destruct (Rge_dec a b); split; intro; try congruence; lra.
Qed.

Lemma ltb_true (a b : R) : JS.ltb a b = true <-> a < b.
Proof. unfold JS.ltb; destruct (Rlt_dec a b); split; (congruence || tauto). Qed.

Lemma ltb_false (a b : R) : JS.ltb a b = false <-> b <= a.
Proof.
  unfold JS.ltb; destruct (Rlt_dec a b); split; intro; try congruence; lra.
Qed.

Lemma gtb_true (a b : R) : JS.gtb a b = true <-> b < a.
Proof.
  unfold JS.gtb; destruct (Rgt_dec a b); split; intro; try congruence; lra.
Qed.

Lemma gtb_false (a b : R) : JS.gtb a b = false <-> a <= b.
Proof.
  unfold JS.gtb; destruct (Rgt_dec a b); split; intro; try congruence; lra.
Qed.

Lemma eqb_true (a b : R) : JS.eqb a b = true <-> a = b.
Proof. unfold JS.eqb; destruct (Req_dec_T a b); split; (congruence || tauto). Qed.

Lemma eqb_false (a b : R) : JS.eqb a b = false <-> a <> b.
Proof. unfold JS.eqb; destruct (Req_dec_T a b); split; (congruence || tauto). Qed.

(** Decides the comparisons met in a goal or in a hypothesis, once the
    arithmetic facts that settle them are in the context. *)
Ltac js_case c :=
  let E := fresh "E" in
  destruct c eqn:E;
  [ first [ apply leb_true in E | apply geb_true in E | apply ltb_true in E
          | apply gtb_true in E | apply eqb_true in E ]
  | first [ apply leb_false in E | apply geb_false in E | apply ltb_false in E
          | apply gtb_false in E | apply eqb_false in E ] ].

Ltac js_cases :=
  repeat match goal with
  | |- context [JS.leb ?a ?b] => js_case (JS.leb a b)
  | |- context [JS.geb ?a ?b] => js_case (JS.geb a b)
  | |- context [JS.ltb ?a ?b] => js_case (JS.ltb a b)
  | |- context [JS.gtb ?a ?b] => js_case (JS.gtb a b)
  | |- context [JS.eqb ?a ?b] => js_case (JS.eqb a b)
  end.


(** ** The vector helpers *)

Section Helpers.

Lemma length_nonneg (x y : R) : 0 <= length x y.
Proof. apply sqrt_pos. Qed.

Lemma length_zero_iff (x y : R) : length x y = 0 <-> x = 0 /\ y = 0.
Proof.
  unfold length, JS.hypot; split.
  - intro H. apply sqrt_eq_0 in H; [ nra | nra ].
  - intros [-> ->]. replace (0 * 0 + 0 * 0) with 0 by lra. apply sqrt_0.
Qed.

Lemma length_sqr (x y : R) : length x y * length x y = x * x + y * y.
Proof. unfold length, JS.hypot. apply sqrt_sqrt. nra. Qed.

Lemma div_nonzero (a b : R) : b <> 0 -> JS.div a b = Some (a / b).
Proof. intro H. unfold JS.div. js_cases; [ contradiction | reflexivity ]. Qed.

Lemma normalize_unitVector (x y : R) : normalize x y = Some (unitVector x y).
Proof.
  unfold normalize, unitVector.
  js_case (JS.eqb (length x y) 0); [ reflexivity | ].
  rewrite !div_nonzero by assumption. reflexivity.
Qed.

Lemma clamp_bounds (v lo hi : R) : lo <= hi -> lo <= clamp v lo hi <= hi.
Proof.
  intro H. unfold clamp, JS.max, JS.min.
  unfold Rmin; destruct (Rle_dec hi v); unfold Rmax; destruct (Rle_dec _ _); lra.
Qed.

Lemma clamp_inside (v lo hi : R) : lo <= v <= hi -> clamp v lo hi = v.
Proof.
  intros [Hlo Hhi]. unfold clamp, JS.max, JS.min.
  unfold Rmin; destruct (Rle_dec hi v); unfold Rmax; destruct (Rle_dec _ _); lra.
Qed.

Lemma acos_in_domain (d : R) : -1 <= d <= 1 -> JS.acos d = Some (Ratan.acos d).
Proof.
  intros [H1 H2]. unfold JS.acos.
  apply leb_true in H1, H2. rewrite H1, H2. reflexivity.
Qed.

(** The cosine handed to [Math.acos], and the unfolding of [angleBetween]
    that the guards make possible. *)
Lemma angleBetween_unfold (ax ay bx by_ : R) :
  angleBetween ax ay bx by_ =
  Some (Ratan.acos
          (clamp (dot (vx (unitVector ax ay)) (vy (unitVector ax ay))
                      (vx (unitVector bx by_)) (vy (unitVector bx by_)))
                 (-1) 1)).
Proof.
  unfold angleBetween. rewrite !normalize_unitVector. simpl.
  apply acos_in_domain. apply clamp_bounds. lra.
Qed.

Lemma dot_comm (ax ay bx by_ : R) : dot ax ay bx by_ = dot bx by_ ax ay.
Proof. unfold dot. ring. Qed.

Lemma unitVector_zero : unitVector 0 0 = mkVec 0 0.
Proof.
  unfold unitVector.
  js_case (JS.eqb (length 0 0) 0); [ reflexivity | ].
  exfalso. apply E. apply length_zero_iff. split; reflexivity.
Qed.

Lemma toDegrees_right_angle : toDegrees (PI / 2) = 90.
Proof. unfold toDegrees. pose proof PI_RGT_0. field. lra. Qed.

Lemma toDegrees_bounds (a : R) : 0 <= a <= PI -> 0 <= toDegrees a <= 180.
Proof.
  intros [H0 H1]. unfold toDegrees. pose proof PI_RGT_0 as HP.
  split.
  - apply Rmult_le_pos; [ lra | left; apply Rinv_0_lt_compat; lra ].
  - apply Rmult_le_reg_r with PI; [ lra | ].
    unfold Rdiv. rewrite Rmult_assoc, Rinv_l by lra. nra.
Qed.

End Helpers.

(** ** The angle computation *)

Section Angle.

Lemma unitVector_dot_self (x y : R) :
  length x y <> 0 ->
  dot (vx (unitVector x y)) (vy (unitVector x y))
      (vx (unitVector x y)) (vy (unitVector x y)) = 1.
Proof.
  intro Hm. unfold unitVector.
  js_case (JS.eqb (length x y) 0); [ contradiction | ].
  simpl. unfold dot.
  pose proof (length_sqr x y) as Hs.
  replace (x / length x y * (x / length x y) + y / length x y * (y / length x y))
    with ((x * x + y * y) / (length x y * length x y)) by (field; assumption).
  rewrite <- Hs. field. assumption.
Qed.

Lemma angleBetween_self (x y : R) :
  length x y <> 0 -> angleBetween x y x y = Some 0.
Proof.
  intro Hm. rewrite angleBetween_unfold, unitVector_dot_self by assumption.
  rewrite clamp_inside by lra. rewrite acos_1. reflexivity.
Qed.

Lemma angleBetween_zero_l (x y : R) : angleBetween 0 0 x y = Some (PI / 2).
Proof.
  rewrite angleBetween_unfold, unitVector_zero. simpl.
  replace (dot 0 0 _ _) with 0 by (unfold dot; ring).
  rewrite clamp_inside by lra. rewrite acos_0. reflexivity.
Qed.

Lemma angleBetween_comm (ax ay bx by_ : R) :
  angleBetween ax ay bx by_ = angleBetween bx by_ ax ay.
Proof. rewrite !angleBetween_unfold. rewrite dot_comm. reflexivity. Qed.

(** C9.  The angle computation is commutative in its two vectors, and its
    result lies in [0, PI] radians, that is in [0, 180] degrees. *)
Theorem angleBetween_comm_and_range (ax ay bx by_ : R) :
  angleBetween ax ay bx by_ = angleBetween bx by_ ax ay /\
  exists a : R,
    angleBetween ax ay bx by_ = Some a /\
    0 <= a <= PI /\
    0 <= toDegrees a <= 180.
Proof.
  split; [ apply angleBetween_comm | ].
  eexists. split; [ apply angleBetween_unfold | ].
  split; [ apply acos_bound | apply toDegrees_bounds, acos_bound ].
Qed.

(** C10.  The angle between the zero vector and any vector, in either
    order, is PI/2 radians, 90 degrees.  In the diagnostic the zero vector
    arises when the chosen vertex of the logo coincides with the chosen
    corner of the viewport: the angle shown is then 90 degrees. *)
Theorem angleBetween_zero_vector (x y : R) :
  angleBetween 0 0 x y = Some (PI / 2) /\
  angleBetween x y 0 0 = Some (PI / 2) /\
  toDegrees (PI / 2) = 90 /\
  forall (size : Size) (px py dx dy : R),
    fst (leading size px py dx dy) = snd (leading size px py dx dy) ->
    option_map toDegrees (diagnosticAngle size px py dx dy) = Some 90.
Proof.
  split; [ apply angleBetween_zero_l | ].
  split; [ rewrite angleBetween_comm; apply angleBetween_zero_l | ].
  split; [ apply toDegrees_right_angle | ].
  intros size px py dx dy H. unfold diagnosticAngle.
  destruct (leading size px py dx dy) as [sourceLogo targetScreen].
  simpl in H. subst targetScreen.
  replace (vx sourceLogo - vx sourceLogo) with 0 by ring.
  replace (vy sourceLogo - vy sourceLogo) with 0 by ring.
  rewrite angleBetween_comm, angleBetween_zero_l. simpl.
  f_equal. apply toDegrees_right_angle.
Qed.

(** C10 at a logo driven into the bottom-right corner of a 300 wide
    viewport. *)
Lemma angleBetween_zero_vector_witness :
  fst (leading (mkSize 300 (50 + LOGO_HEIGHT)) 100 50 1 1) =
  snd (leading (mkSize 300 (50 + LOGO_HEIGHT)) 100 50 1 1) /\
  option_map toDegrees
    (diagnosticAngle (mkSize 300 (50 + LOGO_HEIGHT)) 100 50 1 1) = Some 90.
Proof.
  assert (H : fst (leading (mkSize 300 (50 + LOGO_HEIGHT)) 100 50 1 1) =
              snd (leading (mkSize 300 (50 + LOGO_HEIGHT)) 100 50 1 1)).
  { unfold leading. js_case (JS.gtb 1 0); [ simpl | lra ].
    unfold LOGO_WIDTH. f_equal. lra. }
  split; [ exact H | ].
  exact (proj2 (proj2 (proj2 (angleBetween_zero_vector 0 0))) _ _ _ _ _ H).
Defined.

End Angle.

(** ** The angle computation under rounding and in binary64 *)

Section Rounding.

Import PrimFloat.

Lemma rounded_normalize (rnd : R -> R) (hypot : R -> R -> R) (x y : R) :
  Rounded.normalize rnd hypot x y =
  Some (if JS.eqb (hypot x y) 0 then mkVec 0 0
        else mkVec (rnd (x / hypot x y)) (rnd (y / hypot x y))).
Proof.
  unfold Rounded.normalize, Rounded.length, Rounded.div.
  js_case (JS.eqb (hypot x y) 0); [ reflexivity | ].
  rewrite !div_nonzero by assumption. reflexivity.
Qed.

Lemma rounded_exact (ax ay bx by_ : R) :
  Rounded.angleBetween (fun r => r) JS.hypot Ratan.acos ax ay bx by_ =
  angleBetween ax ay bx by_.
Proof.
  unfold Rounded.angleBetween, angleBetween.
  rewrite !rounded_normalize, !normalize_unitVector.
  unfold unitVector, length. reflexivity.
Qed.

(** The number binary64 hands to [Math.acos] for (1,1) and (1,1): one unit
    in the last place below 1. *)
Lemma cosine_diagonal :
  Binary64.cosine 1 1 1 1 = 0x1.ffffffffffffep-1%float /\
  Binary64.toReal (Binary64.cosine 1 1 1 1) = Some (1 - / 2 ^ 52).
Proof.
  split; [ vm_compute; reflexivity | ].
  unfold Binary64.toReal.
  replace (FloatOps.Prim2SF (Binary64.cosine 1 1 1 1))
    with (SpecFloat.S754_finite false 9007199254740990 (-53))
    by (vm_compute; reflexivity).
  f_equal.
  change (powerRZ 2 (-53)) with (/ 2 ^ 53).
  replace (2 ^ 53) with (2 * 2 ^ 52) by (simpl; ring).
  assert (H : 2 ^ 52 = IZR (2 ^ 52)%Z) by (rewrite (pow_IZR 2 52); reflexivity).
  rewrite H. change (2 ^ 52)%Z with 4503599627370496%Z.
  field.
Qed.

(** The number binary64 hands to [Math.acos] for (1,0) and (0,1). *)
Lemma cosine_axes :
  Binary64.cosine 1 0 0 1 = 0%float /\
  Binary64.toReal (Binary64.cosine 1 0 0 1) = Some 0.
Proof.
  split; [ vm_compute; reflexivity | ].
  unfold Binary64.toReal.
  replace (FloatOps.Prim2SF (Binary64.cosine 1 0 0 1))
    with (SpecFloat.S754_zero false) by (vm_compute; reflexivity).
  reflexivity.
Qed.

Lemma cos_small_upper (y : R) :
  0 <= y <= 1 -> cos y <= 1 - y * y / 2 + y * y * y * y / 24.
Proof.
  intros [H0 H1].
  pose proof PI2_1 as HP.
  destruct (cos_bound y 0) as [_ H]; [ lra | lra | ].
  replace (cos_approx y (2 * (0 + 1)))
    with (1 - y * y / 2 + y * y * y * y / 24) in H.
  - exact H.
  - unfold cos_approx, cos_term. simpl. field.
Qed.

Lemma acos_near_one : 0 < Ratan.acos (1 - / 2 ^ 52) < / 10 ^ 7.
Proof.
  assert (H52 : 2 ^ 52 = 4503599627370496)
    by (rewrite (pow_IZR 2 52); reflexivity).
  assert (H7 : 10 ^ 7 = 10000000) by (rewrite (pow_IZR 10 7); reflexivity).
  rewrite H52, H7.
  assert (Hd : -1 < 1 - / 4503599627370496 < 1) by lra.
  destruct (acos_bound_lt _ Hd) as [Hpos Hpi].
  split; [ exact Hpos | ].
  destruct (Rlt_dec (Ratan.acos (1 - / 4503599627370496)) (/ 10000000))
    as [ | Hge ]; [ assumption | ].
  exfalso. apply Rnot_lt_le in Hge.
  pose proof PI2_1 as HP.
  assert (Hc : cos (Ratan.acos (1 - / 4503599627370496)) <= cos (/ 10000000))
    by (apply cos_decr_1; lra).
  rewrite cos_acos in Hc by lra.
  pose proof (cos_small_upper (/ 10000000)) as Hu.
  lra.
Qed.

Lemma angleBetween_diagonal_binary64 :
  Binary64.angleBetween 1 1 1 1 = Some (Ratan.acos (1 - / 2 ^ 52)).
Proof.
  unfold Binary64.angleBetween.
  destruct cosine_diagonal as [_ ->]. cbn [JS.bind].
  apply acos_in_domain.
  assert (H52 : 2 ^ 52 = 4503599627370496)
    by (rewrite (pow_IZR 2 52); reflexivity).
  rewrite H52. lra.
Qed.

Lemma angleBetween_axes_binary64 :
  Binary64.angleBetween 1 0 0 1 = Some (PI / 2).
Proof.
  unfold Binary64.angleBetween.
  destruct cosine_axes as [_ ->]. cbn [JS.bind].
  rewrite acos_in_domain by lra. rewrite acos_0. reflexivity.
Qed.

Lemma round_tenths (x : R) (n : Z) :
  IZR n - / 2 <= x * 10 < IZR n + / 2 -> (up (x * 10 + / 2) - 1)%Z = n.
Proof.
  intros [H1 H2].
  assert (E : (n + 1)%Z = up (x * 10 + / 2))
    by (apply tech_up; rewrite plus_IZR; simpl; lra).
  rewrite <- E. lia.
Qed.

(** [toFixed(1)] on a number that is not negative and below 10^21: the
    digits of the nearest number of tenths. *)
Lemma toFixed1_digits (x : R) (n : Z) :
  0 <= x -> x < 10 ^ 21 ->
  IZR n - / 2 <= x * 10 < IZR n + / 2 ->
  JS.toFixed1 x =
    (let m := NilZero.string_of_uint (N.to_uint (Z.to_N n)) in
     let m := if Nat.leb (String.length m) 1 then ("0" ++ m)%string else m in
     let k := String.length m in
     Some (substring 0 (k - 1) m ++ "." ++ substring (k - 1) 1 m)%string).
Proof.
  intros H0 H21 Hn. unfold JS.toFixed1.
  js_case (JS.ltb x 0); [ lra | ].
  js_case (JS.geb x (10 ^ 21)); [ lra | ].
  rewrite (round_tenths x n Hn). reflexivity.
Qed.

Lemma pow10_21 : 10 ^ 21 = 1000000000000000000000.
Proof. rewrite (pow_IZR 10 21). reflexivity. Qed.

Lemma toFixed1_zero (x : R) :
  0 <= x < / 20 -> JS.toFixed1 x = Some "0.0"%string.
Proof.
  intro H. rewrite (toFixed1_digits x 0).
  - vm_compute. reflexivity.
  - lra.
  - rewrite pow10_21. lra.
  - simpl. lra.
Qed.

Lemma toDegrees_small (a : R) : 0 <= a < / 10 ^ 7 -> 0 <= toDegrees a < / 20.
Proof.
  assert (H7 : 10 ^ 7 = 10000000) by (rewrite (pow_IZR 10 7); reflexivity).
  rewrite H7. intros [H0 H1].
  pose proof PI2_3_2 as HP.
  destruct (toDegrees_bounds a) as [Hlo _]; [ pose proof PI_RGT_0; lra | ].
  split; [ exact Hlo | ].
  unfold toDegrees.
  apply Rmult_lt_reg_r with PI; [ lra | ].
  unfold Rdiv. rewrite Rmult_assoc, Rinv_l by lra. nra.
Qed.

Lemma toDegrees_zero (a : R) : toDegrees a = 0 -> a = 0.
Proof.
  intro H. pose proof PI_RGT_0 as HP.
  apply (f_equal (fun r => r * PI)) in H. cbv beta in H.
  unfold toDegrees, Rdiv in H.
  rewrite Rmult_assoc, Rinv_l in H by lra. lra.
Qed.

(** C7, on the code.  In binary64 the angle computed for the velocity
    (1,1) and the target vector (1,1) is not 0: the claim, which gives 0
    and 90 degrees, does not hold of it. *)
Lemma angleBetween_diagonal_not_zero :
  ~ (option_map toDegrees (Binary64.angleBetween 1 1 1 1) = Some 0 /\
     option_map toDegrees (Binary64.angleBetween 1 0 0 1) = Some 90).
Proof.
  destruct acos_near_one as [Hpos _].
  intros [H _]. rewrite angleBetween_diagonal_binary64 in H.
  remember (Ratan.acos (1 - / 2 ^ 52)) as a eqn:Ea. clear Ea.
  cbn [option_map] in H. injection H as H.
  apply toDegrees_zero in H. lra.
Qed.

(** C7, as the code has it.  In exact arithmetic the angle between the
    velocity (1,1) and the target vector (1,1) is 0.  In binary64 the
    cosine handed to [Math.acos] is 1 - 2^-52, so the angle is positive and
    below 10^-7 radians; the label shows it as 0.0.  Between the velocity
    (1,0) and the target vector (0,1) the angle is 90 degrees, in exact
    arithmetic and in binary64, where the cosine is exactly 0. *)
Theorem angleBetween_examples :
  angleBetween 1 1 1 1 = Some 0 /\
  option_map toDegrees (angleBetween 1 0 0 1) = Some 90 /\
  Binary64.cosine 1 1 1 1 = 0x1.ffffffffffffep-1%float /\
  Binary64.toReal (Binary64.cosine 1 1 1 1) = Some (1 - / 2 ^ 52) /\
  (exists a : R,
     Binary64.angleBetween 1 1 1 1 = Some a /\
     0 < a < / 10 ^ 7 /\
     degreeLabel (toDegrees a) = Some "0.0°"%string) /\
  Binary64.cosine 1 0 0 1 = 0%float /\
  option_map toDegrees (Binary64.angleBetween 1 0 0 1) = Some 90.
Proof.
  split.
  { apply angleBetween_self. intro H. apply length_zero_iff in H. lra. }
  split.
  { assert (H10 : angleBetween 1 0 0 1 = Some (PI / 2)).
    { rewrite angleBetween_unfold.
      replace (dot _ _ _ _) with 0.
      - rewrite clamp_inside by lra. rewrite acos_0. reflexivity.
      - unfold unitVector.
        js_case (JS.eqb (length 1 0) 0); js_case (JS.eqb (length 0 1) 0);
          simpl; unfold dot, Rdiv; ring. }
    rewrite H10. cbn [option_map]. f_equal. apply toDegrees_right_angle. }
  split; [ apply cosine_diagonal | ].
  split; [ apply cosine_diagonal | ].
  split.
  { exists (Ratan.acos (1 - / 2 ^ 52)).
    split; [ apply angleBetween_diagonal_binary64 | ].
    pose proof acos_near_one as Ha.
    split; [ exact Ha | ].
    unfold degreeLabel. rewrite toFixed1_zero; [ reflexivity | ].
    apply toDegrees_small. lra. }
  split; [ apply cosine_axes | ].
  rewrite angleBetween_axes_binary64. cbn [option_map].
  f_equal. apply toDegrees_right_angle.
Qed.

(** C8.  The angle computation is defined on every pair of vectors,
    whatever the rounding of the arithmetic and whatever [Math.hypot] and
    [Math.acos] return: [normalize] divides only by a length that is not
    zero and answers the zero vector otherwise, so both normalizations give
    finite vectors; the rounded dot product, which can leave [-1, 1], is
    clamped into it, so [Math.acos] is called inside its domain and the
    result is a number.  Exact arithmetic is one instance.  In binary64
    both guards are needed: the components 0/0 would be [NaN], and the dot
    product of the normalized (5,12) with itself is 1 + 2^-52, which the
    clamp turns into 1. *)
Theorem angleBetween_defined
    (rnd : R -> R) (hypot : R -> R -> R) (acos : R -> R) (ax ay bx by_ : R) :
  (exists a b : Vec,
     Rounded.normalize rnd hypot ax ay = Some a /\
     Rounded.normalize rnd hypot bx by_ = Some b /\
     a = (if JS.eqb (hypot ax ay) 0 then mkVec 0 0
          else mkVec (rnd (ax / hypot ax ay)) (rnd (ay / hypot ax ay))) /\
     b = (if JS.eqb (hypot bx by_) 0 then mkVec 0 0
          else mkVec (rnd (bx / hypot bx by_)) (rnd (by_ / hypot bx by_))) /\
     let d := clamp (Rounded.dot rnd (vx a) (vy a) (vx b) (vy b)) (-1) 1 in
     -1 <= d <= 1 /\
     Rounded.acosChecked acos d = Some (acos d) /\
     Rounded.angleBetween rnd hypot acos ax ay bx by_ = Some (acos d)) /\
  Rounded.angleBetween (fun r => r) JS.hypot Ratan.acos ax ay bx by_ =
    angleBetween ax ay bx by_ /\
  normalize 0 0 = Some (mkVec 0 0) /\
  Binary64.normalize 0 0 = Binary64.mkVec 0 0 /\
  (0 / 0 =? 0 / 0)%float = false /\
  Binary64.dot (5 / 13) (12 / 13) (5 / 13) (12 / 13) = 0x1.0000000000001p+0%float /\
  Binary64.normalize 5 12 = Binary64.mkVec (5 / 13) (12 / 13) /\
  Binary64.cosine 5 12 5 12 = 1%float.
Proof.
  split.
  { eexists. eexists.
    split; [ apply rounded_normalize | ].
    split; [ apply rounded_normalize | ].
    split; [ reflexivity | ]. split; [ reflexivity | ].
    assert (Hd : forall v, -1 <= clamp v (-1) 1 <= 1)
      by (intro v; apply clamp_bounds; lra).
    assert (Hacos : forall v, Rounded.acosChecked acos (clamp v (-1) 1) =
                              Some (acos (clamp v (-1) 1))).
    { intro v. unfold Rounded.acosChecked.
      destruct (Hd v) as [H1 H2]. apply leb_true in H1, H2.
      rewrite H1, H2. reflexivity. }
    cbv zeta. split; [ apply Hd | ]. split; [ apply Hacos | ].
    unfold Rounded.angleBetween. rewrite !rounded_normalize.
    cbn [JS.bind]. apply Hacos. }
  split; [ apply rounded_exact | ].
  split; [ rewrite normalize_unitVector, unitVector_zero; reflexivity | ].
  vm_compute. repeat split.
Qed.

End Rounding.

(** ** The geometry engine *)

Section Geometry.

Lemma LOGO_HEIGHT_pos : 0 < LOGO_HEIGHT.
Proof.
  unfold LOGO_HEIGHT, LOGO_WIDTH, LOGO_ASPECT_RATIO.
  apply Rdiv_lt_0_compat; lra.
Qed.

(** The resolved coordinate and velocity of the x axis depend on the x axis
    alone, and likewise for y. *)
Lemma rebound_x (mX mY : R) (p dir : Vec) :
  vx (fst (fst (rebound mX mY p dir))) =
    (if JS.leb (vx p) 0 then 0 else if JS.geb (vx p) mX then mX else vx p) /\
  vx (snd (fst (rebound mX mY p dir))) =
    (if JS.leb (vx p) 0 || JS.geb (vx p) mX then - vx dir else vx dir).
Proof.
  unfold rebound.
  destruct (JS.leb (vx p) 0); destruct (JS.geb (vx p) mX);
    destruct (JS.leb (vy p) 0); destruct (JS.geb (vy p) mY);
    simpl; split; ring.
Qed.

Lemma rebound_y (mX mY : R) (p dir : Vec) :
  vy (fst (fst (rebound mX mY p dir))) =
    (if JS.leb (vy p) 0 then 0 else if JS.geb (vy p) mY then mY else vy p) /\
  vy (snd (fst (rebound mX mY p dir))) =
    (if JS.leb (vy p) 0 || JS.geb (vy p) mY then - vy dir else vy dir).
Proof.
  unfold rebound.
  destruct (JS.leb (vx p) 0); destruct (JS.geb (vx p) mX);
    destruct (JS.leb (vy p) 0); destruct (JS.geb (vy p) mY);
    simpl; split; ring.
Qed.

Lemma rebound_bounced (mX mY : R) (p dir : Vec) :
  snd (rebound mX mY p dir) =
  (JS.leb (vx p) 0 || JS.geb (vx p) mX) || (JS.leb (vy p) 0 || JS.geb (vy p) mY).
Proof.
  unfold rebound.
  destruct (JS.leb (vx p) 0); destruct (JS.geb (vx p) mX);
    destruct (JS.leb (vy p) 0); destruct (JS.geb (vy p) mY);
    reflexivity.
Qed.

(** What [animate] stores, in terms of the phases. *)
Lemma animate_refs (env : Env) (s : State) :
  let r := rebound (maxX (containerSize env)) (maxY (containerSize env))
                   (advance (posRef s) (dirRef s)) (dirRef s) in
  posRef (fst (animate env s)) = fst (fst r) /\
  dirRef (fst (animate env s)) = snd (fst r) /\
  renderPos (fst (animate env s)) = fst (fst r) /\
  lastBounceTimeRef (fst (animate env s)) =
    (if snd r then now env else lastBounceTimeRef s).
Proof.
  unfold animate.
  destruct (rebound _ _ _ _) as [[[x y] [dx dy]] bounced]. simpl. tauto.
Qed.

Lemma animate_calls (env : Env) (s : State) :
  snd (animate env s) =
  bursts (containerSize env)
         (vx (posRef (fst (animate env s)))) (vy (posRef (fst (animate env s)))).
Proof.
  unfold animate.
  destruct (rebound _ _ _ _) as [[[x y] [dx dy]] bounced]. reflexivity.
Qed.

(** Along a run both velocity components stay 1 or -1. *)
Lemma reachable_velocity (s : State) :
  reachable s ->
  (vx (dirRef s) = 1 \/ vx (dirRef s) = -1) /\
  (vy (dirRef s) = 1 \/ vy (dirRef s) = -1).
Proof.
  induction 1 as [ | env s Hs [IHx IHy] ].
  - simpl. split; left; reflexivity.
  - destruct (animate_refs env s) as (_ & -> & _).
    destruct (rebound_x (maxX (containerSize env)) (maxY (containerSize env))
                (advance (posRef s) (dirRef s)) (dirRef s)) as [_ ->].
    destruct (rebound_y (maxX (containerSize env)) (maxY (containerSize env))
                (advance (posRef s) (dirRef s)) (dirRef s)) as [_ ->].
    split.
    + destruct (_ || _); destruct IHx as [-> | ->]; lra.
    + destruct (_ || _); destruct IHy as [-> | ->]; lra.
Qed.

(** One axis: a nonzero component changes sign exactly on a hit. *)
Lemma flip_iff_hit (d c m : R) :
  d <> 0 ->
  changesSign d (if JS.leb c 0 || JS.geb c m then - d else d) <->
  c <= 0 \/ c >= m.
Proof.
  intro Hd. unfold changesSign.
  js_case (JS.leb c 0); simpl; [ | js_case (JS.geb c m) ]; split; intro H;
    try nra; try (left; lra); try (right; lra).
Qed.

(** C1.  Whenever [maxX] and [maxY] are not negative, the position a tick
    stores lies within the bounds, whatever position and velocity the tick
    started from. *)
Theorem animate_position_in_bounds (env : Env) (s : State) :
  0 <= maxX (containerSize env) ->
  0 <= maxY (containerSize env) ->
  let s' := fst (animate env s) in
  0 <= vx (posRef s') <= maxX (containerSize env) /\
  0 <= vy (posRef s') <= maxY (containerSize env).
Proof.
  intros HX HY s'. subst s'.
  destruct (animate_refs env s) as (-> & _).
  destruct (rebound_x (maxX (containerSize env)) (maxY (containerSize env))
              (advance (posRef s) (dirRef s)) (dirRef s)) as [-> _].
  destruct (rebound_y (maxX (containerSize env)) (maxY (containerSize env))
              (advance (posRef s) (dirRef s)) (dirRef s)) as [-> _].
  split; js_cases; lra.
Qed.

(** C1 at the first tick after mount in an 800 by 600 container. *)
Lemma animate_position_in_bounds_witness :
  0 <= maxX (mkSize 800 600) /\
  0 <= maxY (mkSize 800 600) /\
  0 <= vx (posRef (fst (animate (mkEnv (mkSize 800 600) false [] 0) initialState)))
    <= maxX (mkSize 800 600) /\
  0 <= vy (posRef (fst (animate (mkEnv (mkSize 800 600) false [] 0) initialState)))
    <= maxY (mkSize 800 600).
Proof.
  assert (HX : 0 <= maxX (mkSize 800 600))
    by (unfold maxX, LOGO_WIDTH; simpl; lra).
  assert (HY : 0 <= maxY (mkSize 800 600)).
  { unfold maxY, LOGO_HEIGHT, LOGO_WIDTH, LOGO_ASPECT_RATIO. simpl.
    apply Rmult_le_reg_r with (744 / 300); [ lra | ].
    rewrite Rmult_0_l.
    replace ((600 - 200 / (744 / 300)) * (744 / 300))
      with (600 * (744 / 300) - 200) by (field; lra).
    lra. }
  split; [ exact HX | ]. split; [ exact HY | ].
  exact (animate_position_in_bounds (mkEnv (mkSize 800 600) false [] 0)
           initialState HX HY).
Defined.

(** C2.  In every tick of a run, the x component of the velocity changes
    sign if and only if the advanced x coordinate is at most 0 or at least
    [maxX], and the y component if and only if the advanced y coordinate is
    at most 0 or at least [maxY].  Each axis is resolved from its own
    coordinate alone, so a tick that hits on both axes inverts both
    components. *)
Theorem velocity_flips_iff_hit (env : Env) (s : State) :
  reachable s ->
  let size := containerSize env in
  let p := advance (posRef s) (dirRef s) in
  let s' := fst (animate env s) in
  (changesSign (vx (dirRef s)) (vx (dirRef s')) <->
     vx p <= 0 \/ vx p >= maxX size) /\
  (changesSign (vy (dirRef s)) (vy (dirRef s')) <->
     vy p <= 0 \/ vy p >= maxY size) /\
  vx (dirRef s') =
    (if JS.leb (vx p) 0 || JS.geb (vx p) (maxX size)
     then - vx (dirRef s) else vx (dirRef s)) /\
  vy (dirRef s') =
    (if JS.leb (vy p) 0 || JS.geb (vy p) (maxY size)
     then - vy (dirRef s) else vy (dirRef s)) /\
  ((vx p <= 0 \/ vx p >= maxX size) /\ (vy p <= 0 \/ vy p >= maxY size) ->
   dirRef s' = mkVec (- vx (dirRef s)) (- vy (dirRef s))).
Proof.
  intros Hs size p s'. subst size p s'.
  destruct (reachable_velocity s Hs) as [Hx Hy].
  destruct (animate_refs env s) as (_ & Hdir & _).
  destruct (rebound_x (maxX (containerSize env)) (maxY (containerSize env))
              (advance (posRef s) (dirRef s)) (dirRef s)) as [_ Hdx].
  destruct (rebound_y (maxX (containerSize env)) (maxY (containerSize env))
              (advance (posRef s) (dirRef s)) (dirRef s)) as [_ Hdy].
  rewrite <- Hdir in Hdx, Hdy.
  split; [ rewrite Hdx; apply flip_iff_hit; destruct Hx; lra | ].
  split; [ rewrite Hdy; apply flip_iff_hit; destruct Hy; lra | ].
  split; [ exact Hdx | ]. split; [ exact Hdy | ].
  intros [HhitX HhitY].
  assert (EX : JS.leb (vx (advance (posRef s) (dirRef s))) 0
               || JS.geb (vx (advance (posRef s) (dirRef s)))
                         (maxX (containerSize env)) = true).
  { apply orb_true_iff. destruct HhitX; [ left; apply leb_true; lra
                                        | right; apply geb_true; lra ]. }
  assert (EY : JS.leb (vy (advance (posRef s) (dirRef s))) 0
               || JS.geb (vy (advance (posRef s) (dirRef s)))
                         (maxY (containerSize env)) = true).
  { apply orb_true_iff. destruct HhitY; [ left; apply leb_true; lra
                                        | right; apply geb_true; lra ]. }
  rewrite EX in Hdx. rewrite EY in Hdy.
  destruct (dirRef (fst (animate env s))) as [dx' dy'].
  cbn [vx vy] in Hdx, Hdy. rewrite Hdx, Hdy. reflexivity.
Qed.

(** C2 at the first tick after mount in an 800 by 600 container: no hit,
    no change of sign. *)
Lemma velocity_flips_iff_hit_witness :
  reachable initialState /\
  (changesSign (vx (dirRef initialState))
     (vx (dirRef (fst (animate (mkEnv (mkSize 800 600) false [] 0) initialState))))
   <-> vx (advance (posRef initialState) (dirRef initialState)) <= 0 \/
       vx (advance (posRef initialState) (dirRef initialState))
         >= maxX (mkSize 800 600)).
Proof.
  split; [ exact reachable_mount | ].
  exact (proj1 (velocity_flips_iff_hit (mkEnv (mkSize 800 600) false [] 0)
                  initialState reachable_mount)).
Defined.

(** C5.  From position (598, 2) with velocity (1, -1), under [maxX] = 600
    and [maxY] = 400 and the speed 0.75, a tick moves to (598.75, 1.25),
    bounces on neither axis and leaves the velocity as it was. *)
Theorem tick_scenario :
  SPEED = 0.75 /\
  advance (mkVec 598 2) (mkVec 1 (-1)) = mkVec 598.75 1.25 /\
  rebound 600 400 (mkVec 598.75 1.25) (mkVec 1 (-1)) =
    (mkVec 598.75 1.25, mkVec 1 (-1), false) /\
  maxX (mkSize 800 (400 + LOGO_HEIGHT)) = 600 /\
  maxY (mkSize 800 (400 + LOGO_HEIGHT)) = 400 /\
  forall (dbg : bool) (captured shown : list Shape) (clock last : R) (shownPos : Vec),
    let env := mkEnv (mkSize 800 (400 + LOGO_HEIGHT)) dbg captured clock in
    let s := mkState (mkVec 598 2) (mkVec 1 (-1)) last shownPos shown in
    posRef (fst (animate env s)) = mkVec 598.75 1.25 /\
    dirRef (fst (animate env s)) = mkVec 1 (-1) /\
    renderPos (fst (animate env s)) = mkVec 598.75 1.25 /\
    lastBounceTimeRef (fst (animate env s)) = last.
Proof.
  assert (Hadv : advance (mkVec 598 2) (mkVec 1 (-1)) = mkVec 598.75 1.25).
  { unfold advance, SPEED. simpl. f_equal; lra. }
  assert (Hreb : rebound 600 400 (mkVec 598.75 1.25) (mkVec 1 (-1)) =
                 (mkVec 598.75 1.25, mkVec 1 (-1), false)).
  { unfold rebound. simpl.
    js_case (JS.leb 598.75 0); [ lra | ].
    js_case (JS.geb 598.75 600); [ lra | ].
    js_case (JS.leb 1.25 0); [ lra | ].
    js_case (JS.geb 1.25 400); [ lra | ].
    reflexivity. }
  assert (HmX : maxX (mkSize 800 (400 + LOGO_HEIGHT)) = 600)
    by (unfold maxX, LOGO_WIDTH; simpl; lra).
  assert (HmY : maxY (mkSize 800 (400 + LOGO_HEIGHT)) = 400)
    by (unfold maxY; simpl; lra).
  split; [ reflexivity | ]. split; [ exact Hadv | ]. split; [ exact Hreb | ].
  split; [ exact HmX | ]. split; [ exact HmY | ].
  intros dbg captured shown clock last shownPos env s.
  destruct (animate_refs env s) as (Hp & Hd & Hr & Hl).
  subst env s. simpl in Hp, Hd, Hr, Hl.
  rewrite HmX, HmY, Hadv, Hreb in Hp, Hd, Hr, Hl. simpl in Hp, Hd, Hr, Hl.
  tauto.
Qed.

End Geometry.

(** ** The corner detector *)

Section Corners.

Lemma nearCorner_true (x y : R) (c : Vec) :
  nearCorner x y c = true <->
  Rabs (x - vx c) <= 6 /\ Rabs (y - vy c) <= 6.
Proof.
  unfold nearCorner, JS.abs, CORNER_THRESHOLD.
  rewrite andb_true_iff, !leb_true. tauto.
Qed.

Lemma nearCorner_self (x y : R) : nearCorner x y (mkVec x y) = true.
Proof.
  apply nearCorner_true. cbn [vx vy].
  replace (x - x) with 0 by ring. replace (y - y) with 0 by ring.
  rewrite Rabs_R0. lra.
Qed.

Lemma nearCorner_far_x (x y : R) (c : Vec) :
  6 < x - vx c \/ x - vx c < -6 -> nearCorner x y c = false.
Proof.
  intro H. apply not_true_is_false. rewrite nearCorner_true.
  intros [Hx _]. revert Hx. unfold Rabs. destruct (Rcase_abs _); lra.
Qed.

Lemma nearCorner_far_y (x y : R) (c : Vec) :
  6 < y - vy c \/ y - vy c < -6 -> nearCorner x y c = false.
Proof.
  intro H. apply not_true_is_false. rewrite nearCorner_true.
  intros [_ Hy]. revert Hy. unfold Rabs. destruct (Rcase_abs _); lra.
Qed.

(** Decides every [nearCorner] test of the goal between a point and a
    corner that are equal or differ by more than the threshold on one
    axis. *)
Ltac decide_near :=
  repeat match goal with
  | |- context [nearCorner ?x ?y ?c] =>
      first [ rewrite (nearCorner_far_x x y c) by (cbn [vx vy]; lra)
            | rewrite (nearCorner_far_y x y c) by (cbn [vx vy]; lra)
            | rewrite (nearCorner_self x y) ]
  end.

Lemma fraction_bounds (n d : R) : 0 < d -> 0 <= n <= d -> 0 <= n / d <= 1.
Proof.
  intros Hd [H0 H1]. split.
  - apply Rmult_le_pos; [ lra | left; apply Rinv_0_lt_compat; lra ].
  - apply Rmult_le_reg_r with d; [ lra | ].
    unfold Rdiv. rewrite Rmult_assoc, Rinv_l by lra. lra.
Qed.

(** C3.  With [maxX] and [maxY] above 12, a position exactly at one of the
    four corners of the bounds is near that corner and near no other: the
    loop over the corners makes exactly the call of that corner. *)
Theorem nearCorner_at_corner (size : Size) (c : Vec) :
  12 < maxX size ->
  12 < maxY size ->
  In c (corners (maxX size) (maxY size)) ->
  (forall c' : Vec,
     In c' (corners (maxX size) (maxY size)) ->
     (nearCorner (vx c) (vy c) c' = true <-> c' = c)) /\
  bursts size (vx c) (vy c) = [burst size c].
Proof.
  intros HX HY Hc. unfold corners in Hc. cbn [In] in Hc. split.
  - intros c' Hc'. unfold corners in Hc'. cbn [In] in Hc'. split.
    + intro Hnear.
      destruct Hc as [<- | [<- | [<- | [<- | []]]]];
      destruct Hc' as [<- | [<- | [<- | [<- | []]]]];
        try reflexivity; exfalso; revert Hnear; cbn [vx vy];
        decide_near; discriminate.
    + intros ->. destruct c as [cx cy]. apply nearCorner_self.
  - unfold bursts, corners. cbn [flat_map].
    destruct Hc as [<- | [<- | [<- | [<- | []]]]]; cbn [vx vy];
      decide_near; reflexivity.
Qed.

(** C3 at the corner (0, 0) of the bounds with [maxX] = 600 and
    [maxY] = 400. *)
Lemma nearCorner_at_corner_witness :
  12 < maxX (mkSize 800 (400 + LOGO_HEIGHT)) /\
  12 < maxY (mkSize 800 (400 + LOGO_HEIGHT)) /\
  In (mkVec 0 0) (corners (maxX (mkSize 800 (400 + LOGO_HEIGHT)))
                          (maxY (mkSize 800 (400 + LOGO_HEIGHT)))) /\
  bursts (mkSize 800 (400 + LOGO_HEIGHT)) 0 0 =
    [burst (mkSize 800 (400 + LOGO_HEIGHT)) (mkVec 0 0)].
Proof.
  assert (HX : 12 < maxX (mkSize 800 (400 + LOGO_HEIGHT)))
    by (unfold maxX, LOGO_WIDTH; simpl; lra).
  assert (HY : 12 < maxY (mkSize 800 (400 + LOGO_HEIGHT)))
    by (unfold maxY; simpl; lra).
  assert (Hc : In (mkVec 0 0) (corners (maxX (mkSize 800 (400 + LOGO_HEIGHT)))
                                       (maxY (mkSize 800 (400 + LOGO_HEIGHT)))))
    by (left; reflexivity).
  split; [ exact HX | ]. split; [ exact HY | ]. split; [ exact Hc | ].
  exact (proj2 (nearCorner_at_corner (mkSize 800 (400 + LOGO_HEIGHT))
                  (mkVec 0 0) HX HY Hc)).
Defined.

(** C4.  Every [confetti] call of a tick is the call of a corner the
    resolved position is near, and its origin is that corner plus half the
    logo, divided by the width and by the height of the viewport: a finite
    fraction on each axis whose divisor is not zero.  When the viewport is
    at least as wide and as high as the logo, both fractions lie in
    [0, 1]. *)
Theorem burst_origin_fraction (env : Env) (s : State) (b : Confetti) :
  In b (snd (animate env s)) ->
  let size := containerSize env in
  let pos := posRef (fst (animate env s)) in
  exists c : Vec,
    In c (corners (maxX size) (maxY size)) /\
    nearCorner (vx pos) (vy pos) c = true /\
    b = burst size c /\
    origin b = mkOrigin (JS.div (vx c + LOGO_WIDTH / 2) (width size))
                        (JS.div (vy c + LOGO_HEIGHT / 2) (height size)) /\
    (width size <> 0 ->
     ox (origin b) = Some ((vx c + LOGO_WIDTH / 2) / width size)) /\
    (height size <> 0 ->
     oy (origin b) = Some ((vy c + LOGO_HEIGHT / 2) / height size)) /\
    (LOGO_WIDTH <= width size ->
     LOGO_HEIGHT <= height size ->
     origin b = mkOrigin (Some ((vx c + LOGO_WIDTH / 2) / width size))
                         (Some ((vy c + LOGO_HEIGHT / 2) / height size)) /\
     0 <= (vx c + LOGO_WIDTH / 2) / width size <= 1 /\
     0 <= (vy c + LOGO_HEIGHT / 2) / height size <= 1).
Proof.
  intros Hb size pos. subst size pos.
  rewrite animate_calls in Hb. unfold bursts in Hb.
  apply in_flat_map in Hb. destruct Hb as (c & Hc & Hb).
  exists c. split; [ exact Hc | ].
  destruct (nearCorner _ _ c) eqn:Hnear; [ | contradiction ].
  destruct Hb as [<- | []].
  split; [ reflexivity | ]. split; [ reflexivity | ].
  split; [ reflexivity | ].
  unfold burst. cbn [origin ox oy].
  split; [ intro HW; apply div_nonzero; exact HW | ].
  split; [ intro HH; apply div_nonzero; exact HH | ].
  intros HW HH.
  pose proof LOGO_HEIGHT_pos as HLH.
  assert (HLW : LOGO_WIDTH = 200) by reflexivity.
  rewrite !div_nonzero by lra.
  split; [ reflexivity | ].
  unfold maxX, maxY in Hc. simpl in Hc.
  destruct Hc as [<- | [<- | [<- | [<- | []]]]]; simpl;
    split; apply fraction_bounds; lra.
Qed.

(** C4 at a logo driven into the corner (0, 0) of an 800 by 600
    viewport. *)
Lemma burst_origin_fraction_witness :
  In (burst (mkSize 800 600) (mkVec 0 0))
     (snd (animate (mkEnv (mkSize 800 600) false [] 0)
             (mkState (mkVec 0.75 0.75) (mkVec (-1) (-1)) 0 (mkVec 0.75 0.75) []))) /\
  LOGO_WIDTH <= 800 /\
  LOGO_HEIGHT <= 600 /\
  exists c : Vec,
    origin (burst (mkSize 800 600) (mkVec 0 0)) =
      mkOrigin (Some ((vx c + LOGO_WIDTH / 2) / 800))
               (Some ((vy c + LOGO_HEIGHT / 2) / 600)) /\
    0 <= (vx c + LOGO_WIDTH / 2) / 800 <= 1 /\
    0 <= (vy c + LOGO_HEIGHT / 2) / 600 <= 1.
Proof.
  assert (HW : LOGO_WIDTH <= 800) by (unfold LOGO_WIDTH; lra).
  assert (HH : LOGO_HEIGHT <= 600).
  { unfold LOGO_HEIGHT, LOGO_WIDTH, LOGO_ASPECT_RATIO.
    apply Rmult_le_reg_r with (744 / 300); [ lra | ].
    replace (200 / (744 / 300) * (744 / 300)) with 200 by (field; lra).
    lra. }
  assert (Hb : In (burst (mkSize 800 600) (mkVec 0 0))
     (snd (animate (mkEnv (mkSize 800 600) false [] 0)
             (mkState (mkVec 0.75 0.75) (mkVec (-1) (-1)) 0 (mkVec 0.75 0.75) [])))).
  { rewrite animate_calls.
    destruct (animate_refs (mkEnv (mkSize 800 600) false [] 0)
               (mkState (mkVec 0.75 0.75) (mkVec (-1) (-1)) 0 (mkVec 0.75 0.75) []))
      as (-> & _).
    destruct (rebound_x (maxX (mkSize 800 600)) (maxY (mkSize 800 600))
                (advance (mkVec 0.75 0.75) (mkVec (-1) (-1))) (mkVec (-1) (-1)))
      as [Hx _].
    destruct (rebound_y (maxX (mkSize 800 600)) (maxY (mkSize 800 600))
                (advance (mkVec 0.75 0.75) (mkVec (-1) (-1))) (mkVec (-1) (-1)))
      as [Hy _].
    simpl in Hx, Hy |- *. rewrite Hx, Hy. unfold SPEED.
    js_case (JS.leb (0.75 + -1 * 0.75) 0); [ | lra ].
    unfold bursts, corners. cbn [flat_map]. rewrite (nearCorner_self 0 0).
    left. reflexivity. }
  split; [ exact Hb | ]. split; [ exact HW | ]. split; [ exact HH | ].
  destruct (burst_origin_fraction (mkEnv (mkSize 800 600) false [] 0)
              (mkState (mkVec 0.75 0.75) (mkVec (-1) (-1)) 0 (mkVec 0.75 0.75) [])
              (burst (mkSize 800 600) (mkVec 0 0)) Hb)
    as (c & _ & _ & _ & _ & _ & _ & Hfit).
  destruct (Hfit HW HH) as (Ho & Hfx & Hfy).
  exists c. split; [ exact Ho | ]. split; [ exact Hfx | exact Hfy ].
Defined.

End Corners.

(** ** The angle diagnostic *)

Section Diagnostic.

(** C6.  The vertex of the logo and the corner of the viewport that the
    diagnostic picks follow the sign table: (+,+) the bottom-right ones,
    (+,-) the top-right ones, (-,+) the bottom-left ones, and (-,-) as well
    as every combination with a zero component the top-left ones. *)
Theorem leading_sign_table (size : Size) (x y dx dy : R) :
  leading size x y dx dy =
    (vertexOf (leadingTable (signOf dx) (signOf dy)) x y LOGO_WIDTH LOGO_HEIGHT,
     viewportCorner (leadingTable (signOf dx) (signOf dy)) size) /\
  (0 < dx /\ 0 < dy ->
   leading size x y dx dy =
     (mkVec (x + LOGO_WIDTH) (y + LOGO_HEIGHT),
      mkVec (width size) (height size))) /\
  (0 < dx /\ dy < 0 ->
   leading size x y dx dy = (mkVec (x + LOGO_WIDTH) y, mkVec (width size) 0)) /\
  (dx < 0 /\ 0 < dy ->
   leading size x y dx dy = (mkVec x (y + LOGO_HEIGHT), mkVec 0 (height size))) /\
  ((dx < 0 /\ dy < 0) \/ dx = 0 \/ dy = 0 ->
   leading size x y dx dy = (mkVec x y, mkVec 0 0)).
Proof.
  unfold leading, signOf.
  js_case (JS.gtb dx 0); js_case (JS.gtb dy 0);
    js_case (JS.ltb dx 0); js_case (JS.ltb dy 0); simpl;
    repeat split; intros; try reflexivity; exfalso; lra.
Qed.

(** C6 on the row (+,-). *)
Lemma leading_sign_table_witness :
  (0 < 1 /\ -1 < 0) /\
  leading (mkSize 800 600) 150 150 1 (-1) =
    (mkVec (150 + LOGO_WIDTH) 150, mkVec 800 0).
Proof.
  assert (H : 0 < 1 /\ -1 < 0) by lra.
  split; [ exact H | ].
  exact (proj1 (proj2 (proj2
           (leading_sign_table (mkSize 800 600) 150 150 1 (-1)))) H).
Defined.

End Diagnostic.

(** ** Further laws of the vector helpers *)

Section VectorLaws.

Lemma length_scale (k x y : R) :
  0 <= k -> length (k * x) (k * y) = k * length x y.
Proof.
  intro Hk. unfold length, JS.hypot.
  replace (k * x * (k * x) + k * y * (k * y)) with (k * k * (x * x + y * y))
    by ring.
  rewrite sqrt_mult by nra. rewrite sqrt_square by assumption. reflexivity.
Qed.

Lemma unitVector_scale (k x y : R) :
  0 < k -> unitVector (k * x) (k * y) = unitVector x y.
Proof.
  intro Hk. unfold unitVector. rewrite length_scale by lra.
  js_case (JS.eqb (length x y) 0).
  - rewrite E, Rmult_0_r. js_case (JS.eqb 0 0); [ reflexivity | lra ].
  - js_case (JS.eqb (k * length x y) 0).
    + exfalso. apply Rmult_integral in E0. lra.
    + f_equal; field; lra.
Qed.

Lemma clamp_cases (v lo hi : R) :
  (hi < lo /\ clamp v lo hi = lo) \/
  (lo <= hi /\ v < lo /\ clamp v lo hi = lo) \/
  (lo <= hi /\ hi < v /\ clamp v lo hi = hi) \/
  (lo <= v <= hi /\ clamp v lo hi = v).
Proof.
  unfold clamp, JS.max, JS.min.
  unfold Rmin; destruct (Rle_dec hi v); unfold Rmax; destruct (Rle_dec _ _);
    destruct (Rlt_dec hi lo); destruct (Rlt_dec v lo); destruct (Rlt_dec hi v);
    try lra;
    first [ left; split; [ lra | reflexivity || lra ]
          | right; left; repeat split; lra
          | right; right; left; repeat split; lra
          | right; right; right; repeat split; lra ].
Qed.

(** Inverted bounds: when [max] is below [min], [clamp] answers [min]
    whatever the value, so its result then lies above [max]. *)
Theorem clamp_inverted_bounds (v lo hi : R) :
  hi < lo -> clamp v lo hi = lo /\ hi < clamp v lo hi.
Proof.
  intro H.
  assert (E : clamp v lo hi = lo).
  { unfold clamp, JS.max, JS.min.
    unfold Rmin; destruct (Rle_dec hi v); unfold Rmax; destruct (Rle_dec _ _);
      lra. }
  rewrite E. split; [ reflexivity | exact H ].
Qed.

Lemma clamp_inverted_bounds_witness :
  1 < 2 /\ clamp 0 2 1 = 2 /\ 1 < clamp 0 2 1.
Proof.
  assert (H : 1 < 2) by lra.
  split; [ exact H | ]. exact (clamp_inverted_bounds 0 2 1 H).
Defined.

(** Whatever the bounds, the result of [clamp] is never below [min],
    clamping twice is clamping once, and [clamp] is monotone in the
    value. *)
Theorem clamp_lower_idempotent_monotone (v w lo hi : R) :
  lo <= clamp v lo hi /\
  clamp (clamp v lo hi) lo hi = clamp v lo hi /\
  (v <= w -> clamp v lo hi <= clamp w lo hi).
Proof.
  destruct (clamp_cases v lo hi) as [[H1 E] | [(H1 & H2 & E) | [(H1 & H2 & E) | [H1 E]]]];
    rewrite E;
    (split; [ lra | ]);
    (split;
     [ match goal with
       | |- clamp ?c lo hi = _ =>
           destruct (clamp_cases c lo hi)
             as [[? Ec] | [(? & ? & Ec) | [(? & ? & Ec) | [? Ec]]]];
           rewrite Ec; lra
       end
     | intro Hvw;
       destruct (clamp_cases w lo hi)
         as [[? Ew] | [(? & ? & Ew) | [(? & ? & Ew) | [? Ew]]]];
       rewrite Ew; lra ]).
Qed.

Lemma clamp_lower_idempotent_monotone_witness :
  0 <= 5 /\ clamp 0 (-1) 1 <= clamp 5 (-1) 1.
Proof.
  assert (H : 0 <= 5) by lra.
  split; [ exact H | ].
  exact (proj2 (proj2 (clamp_lower_idempotent_monotone 0 5 (-1) 1)) H).
Defined.

End VectorLaws.

(** ** Motion along a run *)

Section Motion.

(** A tick, axis by axis, from the stored position and velocity. *)
Lemma animate_axes (env : Env) (s : State) :
  let xa := vx (posRef s) + vx (dirRef s) * SPEED in
  let ya := vy (posRef s) + vy (dirRef s) * SPEED in
  let mX := maxX (containerSize env) in
  let mY := maxY (containerSize env) in
  let s' := fst (animate env s) in
  vx (posRef s') = (if JS.leb xa 0 then 0 else if JS.geb xa mX then mX else xa) /\
  vy (posRef s') = (if JS.leb ya 0 then 0 else if JS.geb ya mY then mY else ya) /\
  vx (dirRef s') =
    (if JS.leb xa 0 || JS.geb xa mX then - vx (dirRef s) else vx (dirRef s)) /\
  vy (dirRef s') =
    (if JS.leb ya 0 || JS.geb ya mY then - vy (dirRef s) else vy (dirRef s)) /\
  lastBounceTimeRef s' =
    (if (JS.leb xa 0 || JS.geb xa mX) || (JS.leb ya 0 || JS.geb ya mY)
     then now env else lastBounceTimeRef s) /\
  renderPos s' = posRef s'.
Proof.
  intros xa ya mX mY s'.
  destruct (animate_refs env s) as (Hp & Hd & Hr & Hl).
  fold s' in Hp, Hd, Hr, Hl.
  destruct (rebound_x mX mY (advance (posRef s) (dirRef s)) (dirRef s))
    as [Hx Hdx].
  destruct (rebound_y mX mY (advance (posRef s) (dirRef s)) (dirRef s))
    as [Hy Hdy].
  pose proof (rebound_bounced mX mY (advance (posRef s) (dirRef s)) (dirRef s))
    as Hb.
  fold mX mY in Hp, Hd, Hr, Hl.
  rewrite Hp, Hd, Hl, Hr. rewrite Hb.
  repeat split; assumption.
Qed.

(** A tick never changes the magnitude of a velocity component, nor the
    length of the velocity, whatever the state and the bounds. *)
Theorem animate_speed_conserved (env : Env) (s : State) :
  let s' := fst (animate env s) in
  Rabs (vx (dirRef s')) = Rabs (vx (dirRef s)) /\
  Rabs (vy (dirRef s')) = Rabs (vy (dirRef s)) /\
  length (vx (dirRef s')) (vy (dirRef s')) =
    length (vx (dirRef s)) (vy (dirRef s)).
Proof.
  intro s'. subst s'.
  destruct (animate_axes env s) as (_ & _ & Hdx & Hdy & _).
  rewrite Hdx, Hdy.
  destruct (_ || _); destruct (_ || _); rewrite ?Rabs_Ropp;
    repeat split; unfold length, JS.hypot; f_equal; ring.
Qed.

(** Along every run from mount, under any sizes, flags and clocks: both
    velocity components are 1 or -1, the velocity has length [sqrt 2], and
    the position shown is the position of the physics. *)
Theorem run_invariants (s : State) :
  reachable s ->
  (vx (dirRef s) = 1 \/ vx (dirRef s) = -1) /\
  (vy (dirRef s) = 1 \/ vy (dirRef s) = -1) /\
  length (vx (dirRef s)) (vy (dirRef s)) = sqrt 2 /\
  renderPos s = posRef s.
Proof.
  intro Hs.
  destruct (reachable_velocity s Hs) as [Hx Hy].
  split; [ exact Hx | ]. split; [ exact Hy | ]. split.
  - unfold length, JS.hypot. f_equal.
    destruct Hx as [-> | ->]; destruct Hy as [-> | ->]; ring.
  - destruct Hs as [ | env s Hs ]; [ reflexivity | ].
    destruct (animate_axes env s) as (_ & _ & _ & _ & _ & Hr). exact Hr.
Qed.

Lemma run_invariants_witness :
  reachable (fst (animate (mkEnv (mkSize 800 600) false [] 0) initialState)) /\
  renderPos (fst (animate (mkEnv (mkSize 800 600) false [] 0) initialState)) =
  posRef (fst (animate (mkEnv (mkSize 800 600) false [] 0) initialState)).
Proof.
  assert (H : reachable
                (fst (animate (mkEnv (mkSize 800 600) false [] 0) initialState)))
    by (apply reachable_tick, reachable_mount).
  split; [ exact H | ].
  exact (proj2 (proj2 (proj2 (run_invariants _ H)))).
Defined.



(** From a position within the bounds and a velocity component of 1 or
    -1, a tick that inverts the component leaves the logo on the wall it
    hit with the component pointing away from that wall: at 0 with 1, or
    at the max with -1.  (Stated for x; y is resolved by the same code.) *)
Theorem bounce_turns_inward (env : Env) (s : State) :
  0 <= vx (posRef s) <= maxX (containerSize env) ->
  0 <= vy (posRef s) <= maxY (containerSize env) ->
  vx (dirRef s) = 1 \/ vx (dirRef s) = -1 ->
  vy (dirRef s) = 1 \/ vy (dirRef s) = -1 ->
  let s' := fst (animate env s) in
  (vx (dirRef s') <> vx (dirRef s) ->
   (vx (posRef s') = 0 /\ vx (dirRef s') = 1) \/
   (vx (posRef s') = maxX (containerSize env) /\ vx (dirRef s') = -1)) /\
  (vy (dirRef s') <> vy (dirRef s) ->
   (vy (posRef s') = 0 /\ vy (dirRef s') = 1) \/
   (vy (posRef s') = maxY (containerSize env) /\ vy (dirRef s') = -1)).
Proof.
  intros HX HY HDX HDY s'. subst s'.
  destruct (animate_axes env s) as (Hx & Hy & Hdx & Hdy & _).
  rewrite Hx, Hy, Hdx, Hdy. unfold SPEED.
  split.
  - js_cases; cbn [orb]; intro Hne; try (exfalso; apply Hne; reflexivity);
      destruct HDX as [E1 | E1]; rewrite E1 in *;
      first [ left; split; lra | right; split; lra | lra ].
  - js_cases; cbn [orb]; intro Hne; try (exfalso; apply Hne; reflexivity);
      destruct HDY as [E1 | E1]; rewrite E1 in *;
      first [ left; split; lra | right; split; lra | lra ].
Qed.

Lemma bounce_turns_inward_witness :
  0 <= 600 <= maxX (mkSize 800 600) /\
  vx (dirRef (fst (animate (mkEnv (mkSize 800 600) false [] 0)
                     (mkState (mkVec 600 150) (mkVec 1 1) 0 (mkVec 600 150) []))))
    <> 1 /\
  ((vx (posRef (fst (animate (mkEnv (mkSize 800 600) false [] 0)
                     (mkState (mkVec 600 150) (mkVec 1 1) 0 (mkVec 600 150) []))))
      = 0 /\
    vx (dirRef (fst (animate (mkEnv (mkSize 800 600) false [] 0)
                     (mkState (mkVec 600 150) (mkVec 1 1) 0 (mkVec 600 150) []))))
      = 1) \/
   (vx (posRef (fst (animate (mkEnv (mkSize 800 600) false [] 0)
                     (mkState (mkVec 600 150) (mkVec 1 1) 0 (mkVec 600 150) []))))
      = maxX (mkSize 800 600) /\
    vx (dirRef (fst (animate (mkEnv (mkSize 800 600) false [] 0)
                     (mkState (mkVec 600 150) (mkVec 1 1) 0 (mkVec 600 150) []))))
      = -1)).
Proof.
  assert (HL : 0 <= LOGO_HEIGHT <= 200).
  { pose proof LOGO_HEIGHT_pos. split; [ lra | ].
    unfold LOGO_HEIGHT, LOGO_WIDTH, LOGO_ASPECT_RATIO.
    apply Rmult_le_reg_r with (744 / 300); [ lra | ].
    replace (200 / (744 / 300) * (744 / 300)) with 200 by (field; lra). lra. }
  assert (HX : 0 <= 600 <= maxX (mkSize 800 600))
    by (unfold maxX, LOGO_WIDTH; simpl; lra).
  assert (HY : 0 <= 150 <= maxY (mkSize 800 600))
    by (unfold maxY; simpl; lra).
  assert (HD : 1 = 1 \/ 1 = -1) by (left; reflexivity).
  assert (Hne : vx (dirRef (fst (animate (mkEnv (mkSize 800 600) false [] 0)
                     (mkState (mkVec 600 150) (mkVec 1 1) 0 (mkVec 600 150) []))))
                <> 1).
  { destruct (animate_axes (mkEnv (mkSize 800 600) false [] 0)
               (mkState (mkVec 600 150) (mkVec 1 1) 0 (mkVec 600 150) []))
      as (_ & _ & Hdx & _).
    rewrite Hdx. cbn [posRef dirRef vx containerSize]. unfold SPEED.
    js_case (JS.leb (600 + 1 * 0.75) 0); [ lra | ].
    js_case (JS.geb (600 + 1 * 0.75) (maxX (mkSize 800 600)));
      [ cbn [orb]; lra | ].
    exfalso. unfold maxX, LOGO_WIDTH in E0. simpl in E0. lra. }
  split; [ exact HX | ]. split; [ exact Hne | ].
  exact (proj1 (bounce_turns_inward (mkEnv (mkSize 800 600) false [] 0)
                  (mkState (mkVec 600 150) (mkVec 1 1) 0 (mkVec 600 150) [])
                  HX HY HD HD) Hne).
Defined.

(** One axis of a tick, from a coordinate within the bounds and a
    component of 1 or -1: an inverted component points away from the wall
    the coordinate was put on. *)
Lemma axis_bounce (x d m : R) :
  0 <= x <= m ->
  d = 1 \/ d = -1 ->
  let xa := x + d * SPEED in
  (if JS.leb xa 0 || JS.geb xa m then - d else d) <> d ->
  ((if JS.leb xa 0 then 0 else if JS.geb xa m then m else xa) = 0 /\
   (if JS.leb xa 0 || JS.geb xa m then - d else d) = 1) \/
  ((if JS.leb xa 0 then 0 else if JS.geb xa m then m else xa) = m /\
   (if JS.leb xa 0 || JS.geb xa m then - d else d) = -1).
Proof.
  intros Hx Hd xa. subst xa. unfold SPEED.
  js_cases; cbn [orb]; intro Hne; try (exfalso; apply Hne; reflexivity);
    destruct Hd as [E1 | E1]; rewrite E1 in *;
    first [ left; split; lra | right; split; lra | lra ].
Qed.

(** One axis of a tick from a wall with the component pointing away from
    it, in bounds wider than one step: no hit. *)
Lemma axis_leaves_wall (x d m : R) :
  SPEED < m ->
  (x = 0 /\ d = 1) \/ (x = m /\ d = -1) ->
  JS.leb (x + d * SPEED) 0 || JS.geb (x + d * SPEED) m = false.
Proof.
  unfold SPEED. intros Hm [[-> ->] | [-> ->]]; js_cases; cbn [orb];
    try reflexivity; lra.
Qed.

(** In bounds wider than one step, a logo within the bounds never bounces
    on the same axis in two successive ticks: after a tick that inverted
    a velocity component, the next tick under the same size keeps it. *)
Theorem no_double_bounce (env1 env2 : Env) (s : State) :
  containerSize env2 = containerSize env1 ->
  SPEED < maxX (containerSize env1) ->
  SPEED < maxY (containerSize env1) ->
  0 <= vx (posRef s) <= maxX (containerSize env1) ->
  0 <= vy (posRef s) <= maxY (containerSize env1) ->
  vx (dirRef s) = 1 \/ vx (dirRef s) = -1 ->
  vy (dirRef s) = 1 \/ vy (dirRef s) = -1 ->
  let s1 := fst (animate env1 s) in
  let s2 := fst (animate env2 s1) in
  (vx (dirRef s1) <> vx (dirRef s) -> vx (dirRef s2) = vx (dirRef s1)) /\
  (vy (dirRef s1) <> vy (dirRef s) -> vy (dirRef s2) = vy (dirRef s1)).
Proof.
  intros Hsize HmX HmY HX HY HDX HDY s1 s2.
  destruct (animate_axes env1 s) as (Hx & Hy & Hdx & Hdy & _).
  destruct (animate_axes env2 s1) as (_ & _ & Hdx2 & Hdy2 & _).
  fold s1 in Hx, Hy, Hdx, Hdy. fold s2 in Hdx2, Hdy2.
  rewrite Hsize in Hdx2, Hdy2.
  split; intro Hne.
  - rewrite Hdx in Hne.
    pose proof (axis_bounce _ _ _ HX HDX Hne) as Hwall.
    cbv zeta in Hwall. rewrite <- Hx, <- Hdx in Hwall.
    rewrite Hdx2, (axis_leaves_wall _ _ _ HmX Hwall). reflexivity.
  - rewrite Hdy in Hne.
    pose proof (axis_bounce _ _ _ HY HDY Hne) as Hwall.
    cbv zeta in Hwall. rewrite <- Hy, <- Hdy in Hwall.
    rewrite Hdy2, (axis_leaves_wall _ _ _ HmY Hwall). reflexivity.
Qed.

(** A logo left beyond the right bound (as after a shrinking resize) and
    moving leftwards, at least one step beyond: the tick puts it on the
    bound in one jump and turns its velocity to the right, so that the next
    tick under the same size hits the same bound again and only then sends
    it leftwards. *)
Theorem reclamp_beyond_bound (env1 env2 : Env) (s : State) :
  containerSize env2 = containerSize env1 ->
  0 <= maxX (containerSize env1) ->
  maxX (containerSize env1) + SPEED <= vx (posRef s) ->
  vx (dirRef s) = -1 ->
  let s1 := fst (animate env1 s) in
  let s2 := fst (animate env2 s1) in
  vx (posRef s1) = maxX (containerSize env1) /\
  vx (dirRef s1) = 1 /\
  lastBounceTimeRef s1 = now env1 /\
  vx (posRef s2) = maxX (containerSize env1) /\
  vx (dirRef s2) = -1 /\
  lastBounceTimeRef s2 = now env2.
Proof.
  intros Hsize HmX HX HD s1 s2.
  destruct (animate_axes env1 s) as (Hx & _ & Hdx & _ & Hl & _).
  destruct (animate_axes env2 s1) as (Hx2 & _ & Hdx2 & _ & Hl2 & _).
  fold s1 in Hx, Hdx, Hl. fold s2 in Hx2, Hdx2, Hl2.
  rewrite Hsize in Hx2, Hdx2, Hl2.
  rewrite HD in Hx, Hdx, Hl. unfold SPEED in *.
  assert (E1 : vx (posRef s1) = maxX (containerSize env1)).
  { rewrite Hx. js_cases; lra. }
  assert (E2 : vx (dirRef s1) = 1).
  { rewrite Hdx. js_cases; cbn [orb]; lra. }
  assert (E3 : lastBounceTimeRef s1 = now env1).
  { rewrite Hl.
    js_case (JS.leb (vx (posRef s) + -1 * 0.75) 0); [ reflexivity | ].
    js_case (JS.geb (vx (posRef s) + -1 * 0.75) (maxX (containerSize env1)));
      [ reflexivity | lra ]. }
  rewrite E1, E2 in Hx2, Hdx2, Hl2.
  split; [ exact E1 | ]. split; [ exact E2 | ]. split; [ exact E3 | ].
  split; [ rewrite Hx2; js_cases; lra | ].
  split; [ rewrite Hdx2; js_cases; cbn [orb]; lra | ].
  rewrite Hl2.
  js_case (JS.leb (maxX (containerSize env1) + 1 * 0.75) 0); [ reflexivity | ].
  js_case (JS.geb (maxX (containerSize env1) + 1 * 0.75)
             (maxX (containerSize env1))); [ reflexivity | lra ].
Qed.

(** The bounce timestamp is refreshed exactly on the ticks that leave the
    logo on a wall of the bounds; on every other tick it is kept, the
    velocity is kept too and the logo lies strictly inside the bounds. *)
Theorem bounce_timestamp (env : Env) (s : State) :
  let s' := fst (animate env s) in
  let onWall :=
    vx (posRef s') = 0 \/ vx (posRef s') = maxX (containerSize env) \/
    vy (posRef s') = 0 \/ vy (posRef s') = maxY (containerSize env) in
  (onWall -> lastBounceTimeRef s' = now env) /\
  (~ onWall ->
   lastBounceTimeRef s' = lastBounceTimeRef s /\
   dirRef s' = dirRef s /\
   0 < vx (posRef s') < maxX (containerSize env) /\
   0 < vy (posRef s') < maxY (containerSize env)).
Proof.
  intros s' onWall. subst onWall.
  destruct (animate_axes env s) as (Hx & Hy & Hdx & Hdy & Hl & _).
  fold s' in Hx, Hy, Hdx, Hdy, Hl.
  destruct (dirRef s') as [dx' dy']. cbn [vx vy] in Hdx, Hdy.
  rewrite Hx, Hy, Hl, Hdx, Hdy. clear Hx Hy Hl Hdx Hdy.
  split.
  - js_cases; cbn [orb]; intro H; try reflexivity; exfalso; lra.
  - js_cases; cbn [orb]; intro H;
      try (exfalso; apply H; auto; fail);
      repeat split; try lra.
    destruct (dirRef s); reflexivity.
Qed.

Lemma bounce_timestamp_witness :
  vx (posRef (fst (animate (mkEnv (mkSize 800 600) false [] 5)
                     (mkState (mkVec 0.75 150) (mkVec (-1) 1) 0 (mkVec 0.75 150) []))))
    = 0 /\
  lastBounceTimeRef
    (fst (animate (mkEnv (mkSize 800 600) false [] 5)
            (mkState (mkVec 0.75 150) (mkVec (-1) 1) 0 (mkVec 0.75 150) []))) = 5.
Proof.
  assert (H : vx (posRef (fst (animate (mkEnv (mkSize 800 600) false [] 5)
                (mkState (mkVec 0.75 150) (mkVec (-1) 1) 0 (mkVec 0.75 150) []))))
              = 0).
  { destruct (animate_axes (mkEnv (mkSize 800 600) false [] 5)
               (mkState (mkVec 0.75 150) (mkVec (-1) 1) 0 (mkVec 0.75 150) []))
      as (Hx & _).
    rewrite Hx. cbn [posRef dirRef vx]. unfold SPEED.
    js_case (JS.leb (0.75 + -1 * 0.75) 0); [ reflexivity | lra ]. }
  split; [ exact H | ].
  exact (proj1 (bounce_timestamp (mkEnv (mkSize 800 600) false [] 5)
                  (mkState (mkVec 0.75 150) (mkVec (-1) 1) 0 (mkVec 0.75 150) []))
               (or_introl H)).
Defined.

Lemma no_double_bounce_witness :
  SPEED < maxX (mkSize 800 600) /\
  vx (dirRef (fst (animate (mkEnv (mkSize 800 600) false [] 0)
                     (mkState (mkVec 600 150) (mkVec 1 1) 0 (mkVec 600 150) []))))
    <> 1 /\
  vx (dirRef (fst (animate (mkEnv (mkSize 800 600) false [] 1)
       (fst (animate (mkEnv (mkSize 800 600) false [] 0)
               (mkState (mkVec 600 150) (mkVec 1 1) 0 (mkVec 600 150) []))))))
  = vx (dirRef (fst (animate (mkEnv (mkSize 800 600) false [] 0)
                 (mkState (mkVec 600 150) (mkVec 1 1) 0 (mkVec 600 150) [])))).
Proof.
  assert (HL : 0 <= LOGO_HEIGHT <= 200).
  { pose proof LOGO_HEIGHT_pos. split; [ lra | ].
    unfold LOGO_HEIGHT, LOGO_WIDTH, LOGO_ASPECT_RATIO.
    apply Rmult_le_reg_r with (744 / 300); [ lra | ].
    replace (200 / (744 / 300) * (744 / 300)) with 200 by (field; lra). lra. }
  assert (HmX : SPEED < maxX (mkSize 800 600))
    by (unfold SPEED, maxX, LOGO_WIDTH; simpl; lra).
  assert (HmY : SPEED < maxY (mkSize 800 600))
    by (unfold SPEED, maxY; simpl; lra).
  assert (HX : 0 <= 600 <= maxX (mkSize 800 600))
    by (unfold maxX, LOGO_WIDTH; simpl; lra).
  assert (HY : 0 <= 150 <= maxY (mkSize 800 600))
    by (unfold maxY; simpl; lra).
  assert (HD : 1 = 1 \/ 1 = -1) by (left; reflexivity).
  assert (Hne : vx (dirRef (fst (animate (mkEnv (mkSize 800 600) false [] 0)
                     (mkState (mkVec 600 150) (mkVec 1 1) 0 (mkVec 600 150) []))))
                <> 1).
  { destruct (animate_axes (mkEnv (mkSize 800 600) false [] 0)
               (mkState (mkVec 600 150) (mkVec 1 1) 0 (mkVec 600 150) []))
      as (_ & _ & Hdx & _).
    rewrite Hdx. cbn [posRef dirRef vx containerSize]. unfold SPEED.
    js_case (JS.leb (600 + 1 * 0.75) 0); [ lra | ].
    js_case (JS.geb (600 + 1 * 0.75) (maxX (mkSize 800 600)));
      [ cbn [orb]; lra | ].
    exfalso. unfold maxX, LOGO_WIDTH in E0. simpl in E0. lra. }
  split; [ exact HmX | ]. split; [ exact Hne | ].
  exact (proj1 (no_double_bounce (mkEnv (mkSize 800 600) false [] 0)
                  (mkEnv (mkSize 800 600) false [] 1)
                  (mkState (mkVec 600 150) (mkVec 1 1) 0 (mkVec 600 150) [])
                  eq_refl HmX HmY HX HY HD HD) Hne).
Defined.

(** A logo at x = 600 moving leftwards when the container has shrunk to
    400 wide. *)
Lemma reclamp_beyond_bound_witness :
  maxX (mkSize 400 600) + SPEED <= 600 /\
  vx (posRef (fst (animate (mkEnv (mkSize 400 600) false [] 0)
            (mkState (mkVec 600 150) (mkVec (-1) 1) 0 (mkVec 600 150) []))))
  = maxX (mkSize 400 600) /\
  vx (dirRef (fst (animate (mkEnv (mkSize 400 600) false [] 0)
            (mkState (mkVec 600 150) (mkVec (-1) 1) 0 (mkVec 600 150) []))))
  = 1.
Proof.
  assert (HmX : 0 <= maxX (mkSize 400 600))
    by (unfold maxX, LOGO_WIDTH; simpl; lra).
  assert (HX : maxX (mkSize 400 600) + SPEED <= 600)
    by (unfold SPEED, maxX, LOGO_WIDTH; simpl; lra).
  split; [ exact HX | ].
  destruct (reclamp_beyond_bound (mkEnv (mkSize 400 600) false [] 0)
              (mkEnv (mkSize 400 600) false [] 1)
              (mkState (mkVec 600 150) (mkVec (-1) 1) 0 (mkVec 600 150) [])
              eq_refl HmX HX eq_refl) as (H1 & H2 & _).
  split; [ exact H1 | exact H2 ].
Defined.

(** A viewport not wider than the logo ([maxX] at most 0): every tick hits
    on the x axis, whatever the state.  The x velocity is inverted at each
    tick, the logo is put at 0 or at [maxX], and the bounce timestamp is
    refreshed at each tick.  Likewise on the y axis when [maxY] is at most
    0. *)
Theorem degenerate_bounds_bounce_every_tick (env : Env) (s : State) :
  let s' := fst (animate env s) in
  (maxX (containerSize env) <= 0 ->
   vx (dirRef s') = - vx (dirRef s) /\
   (vx (posRef s') = 0 \/ vx (posRef s') = maxX (containerSize env)) /\
   lastBounceTimeRef s' = now env) /\
  (maxY (containerSize env) <= 0 ->
   vy (dirRef s') = - vy (dirRef s) /\
   (vy (posRef s') = 0 \/ vy (posRef s') = maxY (containerSize env)) /\
   lastBounceTimeRef s' = now env).
Proof.
  intro s'. subst s'.
  destruct (animate_axes env s) as (Hx & Hy & Hdx & Hdy & Hl & _).
  rewrite Hx, Hy, Hdx, Hdy, Hl. clear Hx Hy Hdx Hdy Hl.
  split; intro Hm.
  - js_case (JS.leb (vx (posRef s) + vx (dirRef s) * SPEED) 0); cbn [orb].
    + auto.
    + js_case (JS.geb (vx (posRef s) + vx (dirRef s) * SPEED)
                 (maxX (containerSize env))); cbn [orb]; [ auto | lra ].
  - js_case (JS.leb (vy (posRef s) + vy (dirRef s) * SPEED) 0);
      rewrite ?orb_true_r.
    + auto.
    + js_case (JS.geb (vy (posRef s) + vy (dirRef s) * SPEED)
                 (maxY (containerSize env))); rewrite ?orb_true_r;
        cbn [orb]; [ auto | lra ].
Qed.

(** A container 150 wide, narrower than the logo. *)
Lemma degenerate_bounds_bounce_every_tick_witness :
  maxX (mkSize 150 600) <= 0 /\
  vx (dirRef (fst (animate (mkEnv (mkSize 150 600) false [] 0) initialState)))
    = - vx (dirRef initialState).
Proof.
  assert (H : maxX (mkSize 150 600) <= 0)
    by (unfold maxX, LOGO_WIDTH; simpl; lra).
  split; [ exact H | ].
  exact (proj1 (proj1 (degenerate_bounds_bounce_every_tick
                         (mkEnv (mkSize 150 600) false [] 0) initialState) H)).
Defined.




End Motion.

(** ** How many bursts a tick fires *)

Section BurstCount.

Lemma nearCorner_box (x y : R) (c : Vec) :
  nearCorner x y c = true <->
  (-6 <= x - vx c <= 6) /\ (-6 <= y - vy c <= 6).
Proof.
  rewrite nearCorner_true. unfold Rabs.
  destruct (Rcase_abs (x - vx c)); destruct (Rcase_abs (y - vy c));
    split; intros [H1 H2]; split; lra.
Qed.

(** The stored position, within the bounds when these are not negative
    (the content of the bounds invariant, in the form the proofs below
    use). *)
Lemma stored_position_bounds (env : Env) (s : State) :
  0 <= maxX (containerSize env) ->
  0 <= maxY (containerSize env) ->
  0 <= vx (posRef (fst (animate env s))) <= maxX (containerSize env) /\
  0 <= vy (posRef (fst (animate env s))) <= maxY (containerSize env).
Proof.
  intros HX HY.
  destruct (animate_axes env s) as (Hx & Hy & _).
  rewrite Hx, Hy. split; js_cases; lra.
Qed.

Lemma bursts_at_most_one (size : Size) (x y : R) :
  12 < maxX size -> 12 < maxY size ->
  (List.length (bursts size x y) <= 1)%nat.
Proof.
  intros HX HY. unfold bursts, corners. cbn [flat_map].
  destruct (nearCorner x y (mkVec 0 0)) eqn:E1;
  destruct (nearCorner x y (mkVec (maxX size) 0)) eqn:E2;
  destruct (nearCorner x y (mkVec 0 (maxY size))) eqn:E3;
  destruct (nearCorner x y (mkVec (maxX size) (maxY size))) eqn:E4;
    try apply nearCorner_box in E1; try apply nearCorner_box in E2;
    try apply nearCorner_box in E3; try apply nearCorner_box in E4;
    cbn [vx vy] in *; cbn [app List.length];
    first [ lia | exfalso; lra ].
Qed.

(** In bounds larger than twice the threshold, a tick fires at most one
    burst, wherever the logo is. *)
Theorem animate_at_most_one_burst (env : Env) (s : State) :
  12 < maxX (containerSize env) ->
  12 < maxY (containerSize env) ->
  (List.length (snd (animate env s)) <= 1)%nat.
Proof.
  intros HX HY. rewrite animate_calls. apply bursts_at_most_one; assumption.
Qed.

Lemma animate_at_most_one_burst_witness :
  12 < maxX (mkSize 800 (400 + LOGO_HEIGHT)) /\
  (List.length (snd (animate (mkEnv (mkSize 800 (400 + LOGO_HEIGHT)) false [] 0)
                       initialState)) <= 1)%nat.
Proof.
  assert (HX : 12 < maxX (mkSize 800 (400 + LOGO_HEIGHT)))
    by (unfold maxX, LOGO_WIDTH; simpl; lra).
  assert (HY : 12 < maxY (mkSize 800 (400 + LOGO_HEIGHT)))
    by (unfold maxY; simpl; lra).
  split; [ exact HX | ].
  exact (animate_at_most_one_burst
           (mkEnv (mkSize 800 (400 + LOGO_HEIGHT)) false [] 0) initialState HX HY).
Defined.

(** A tick never fires more than four bursts; in a viewport of exactly the
    size of the logo the four corners of the bounds coincide and every tick
    fires all four, each with the same origin. *)
Theorem animate_four_bursts (env : Env) (s : State) :
  (List.length (snd (animate env s)) <= 4)%nat /\
  (maxX (containerSize env) = 0 -> maxY (containerSize env) = 0 ->
   snd (animate env s) = repeat (burst (containerSize env) (mkVec 0 0)) 4).
Proof.
  split.
  - rewrite animate_calls. unfold bursts, corners. cbn [flat_map].
    repeat match goal with
    | |- context [nearCorner ?x ?y ?c] => destruct (nearCorner x y c)
    end; cbn [app List.length]; lia.
  - intros HX HY.
    assert (H0X : 0 <= maxX (containerSize env)) by lra.
    assert (H0Y : 0 <= maxY (containerSize env)) by lra.
    destruct (stored_position_bounds env s H0X H0Y) as [Hx Hy].
    rewrite animate_calls. unfold bursts, corners. rewrite HX, HY in *.
    assert (Hnear : nearCorner (vx (posRef (fst (animate env s))))
                      (vy (posRef (fst (animate env s)))) (mkVec 0 0) = true)
      by (apply nearCorner_box; cbn [vx vy]; lra).
    cbn [flat_map]. rewrite Hnear. reflexivity.
Qed.

(** A viewport of exactly the size of the logo. *)
Lemma animate_four_bursts_witness :
  maxX (mkSize LOGO_WIDTH LOGO_HEIGHT) = 0 /\
  maxY (mkSize LOGO_WIDTH LOGO_HEIGHT) = 0 /\
  snd (animate (mkEnv (mkSize LOGO_WIDTH LOGO_HEIGHT) false [] 0) initialState) =
  repeat (burst (mkSize LOGO_WIDTH LOGO_HEIGHT) (mkVec 0 0)) 4.
Proof.
  assert (HX : maxX (mkSize LOGO_WIDTH LOGO_HEIGHT) = 0)
    by (unfold maxX; simpl; lra).
  assert (HY : maxY (mkSize LOGO_WIDTH LOGO_HEIGHT) = 0)
    by (unfold maxY; simpl; lra).
  split; [ exact HX | ]. split; [ exact HY | ].
  exact (proj2 (animate_four_bursts
                  (mkEnv (mkSize LOGO_WIDTH LOGO_HEIGHT) false [] 0) initialState)
               HX HY).
Defined.

(** With bounds that are not negative, a tick fires a burst exactly when
    the stored position is within the threshold of a wall on both axes,
    whether the tick bounced or not. *)
Theorem animate_burst_iff_corner_box (env : Env) (s : State) :
  0 <= maxX (containerSize env) ->
  0 <= maxY (containerSize env) ->
  let x := vx (posRef (fst (animate env s))) in
  let y := vy (posRef (fst (animate env s))) in
  snd (animate env s) <> [] <->
  (x <= CORNER_THRESHOLD \/ maxX (containerSize env) - CORNER_THRESHOLD <= x) /\
  (y <= CORNER_THRESHOLD \/ maxY (containerSize env) - CORNER_THRESHOLD <= y).
Proof.
  intros HX HY x y.
  destruct (stored_position_bounds env s HX HY) as [Hx Hy].
  fold x in Hx. fold y in Hy.
  rewrite animate_calls. fold x y. unfold CORNER_THRESHOLD.
  split.
  - intro Hne.
    destruct (bursts (containerSize env) x y) as [ | b rest ] eqn:Eb;
      [ contradiction | ].
    assert (Hin : In b (bursts (containerSize env) x y))
      by (rewrite Eb; left; reflexivity).
    unfold bursts in Hin. apply in_flat_map in Hin.
    destruct Hin as (c & Hc & Hb).
    destruct (nearCorner x y c) eqn:Hnear; [ | contradiction ].
    apply nearCorner_box in Hnear.
    unfold corners in Hc. cbn [In] in Hc.
    destruct Hc as [<- | [<- | [<- | [<- | []]]]]; cbn [vx vy] in Hnear; lra.
  - intros [Hbx Hby].
    assert (Hex : exists c, In c (corners (maxX (containerSize env))
                                          (maxY (containerSize env))) /\
                            nearCorner x y c = true).
    { destruct Hbx as [Hbx | Hbx]; destruct Hby as [Hby | Hby].
      - exists (mkVec 0 0). split; [ cbn; tauto | ].
        apply nearCorner_box; cbn [vx vy]; lra.
      - exists (mkVec 0 (maxY (containerSize env))). split; [ cbn; tauto | ].
        apply nearCorner_box; cbn [vx vy]; lra.
      - exists (mkVec (maxX (containerSize env)) 0). split; [ cbn; tauto | ].
        apply nearCorner_box; cbn [vx vy]; lra.
      - exists (mkVec (maxX (containerSize env)) (maxY (containerSize env))).
        split; [ cbn; tauto | ].
        apply nearCorner_box; cbn [vx vy]; lra. }
    destruct Hex as (c & Hc & Hnear).
    assert (Hin : In (burst (containerSize env) c)
                     (bursts (containerSize env) x y)).
    { unfold bursts. apply in_flat_map. exists c. split; [ exact Hc | ].
      rewrite Hnear. left. reflexivity. }
    intro E. rewrite E in Hin. exact Hin.
Qed.

(** The first tick after mount in an 800 by 600 container: no burst. *)
Lemma animate_burst_iff_corner_box_witness :
  0 <= maxX (mkSize 800 600) /\
  0 <= maxY (mkSize 800 600) /\
  (snd (animate (mkEnv (mkSize 800 600) false [] 0) initialState) <> [] <->
   (vx (posRef (fst (animate (mkEnv (mkSize 800 600) false [] 0) initialState)))
      <= CORNER_THRESHOLD \/
    maxX (mkSize 800 600) - CORNER_THRESHOLD
      <= vx (posRef (fst (animate (mkEnv (mkSize 800 600) false [] 0) initialState)))) /\
   (vy (posRef (fst (animate (mkEnv (mkSize 800 600) false [] 0) initialState)))
      <= CORNER_THRESHOLD \/
    maxY (mkSize 800 600) - CORNER_THRESHOLD
      <= vy (posRef (fst (animate (mkEnv (mkSize 800 600) false [] 0) initialState))))).
Proof.
  assert (HL : 0 <= LOGO_HEIGHT <= 200).
  { pose proof LOGO_HEIGHT_pos. split; [ lra | ].
    unfold LOGO_HEIGHT, LOGO_WIDTH, LOGO_ASPECT_RATIO.
    apply Rmult_le_reg_r with (744 / 300); [ lra | ].
    replace (200 / (744 / 300) * (744 / 300)) with 200 by (field; lra). lra. }
  assert (HX : 0 <= maxX (mkSize 800 600))
    by (unfold maxX, LOGO_WIDTH; simpl; lra).
  assert (HY : 0 <= maxY (mkSize 800 600))
    by (unfold maxY; simpl; lra).
  split; [ exact HX | ]. split; [ exact HY | ].
  exact (animate_burst_iff_corner_box (mkEnv (mkSize 800 600) false [] 0)
           initialState HX HY).
Defined.

End BurstCount.

(** ** The debug overlay *)

Section Overlay.

Lemma DEG8_pos : 0 < DEG8.
Proof. unfold DEG8. pose proof PI_RGT_0. apply Rdiv_lt_0_compat; lra. Qed.

Lemma diagnostic_length (size : Size) (x y dx dy : R) :
  List.length (diagnostic size x y dx dy) = 3%nat.
Proof.
  unfold diagnostic. destruct (leading size x y dx dy). reflexivity.
Qed.

Lemma toFixed1_some (x : R) :
  0 <= x <= 180 -> exists digits : string, JS.toFixed1 x = Some digits.
Proof.
  intros [H0 H1]. unfold JS.toFixed1.
  js_case (JS.ltb x 0); [ lra | ].
  js_case (JS.geb x (10 ^ 21)); [ rewrite pow10_21 in E0; lra | ].
  eexists. reflexivity.
Qed.

(** The overlay of a tick is always three shapes: a dashed line from the
    chosen vertex to the chosen corner, a label at its middle, 5 above, and
    a solid ray of 300 times the velocity from the same vertex.  The angle
    is a finite number between 0 and 180 degrees, and the label is that
    number of degrees printed by [toFixed(1)], followed by the degree sign.
    Line and label are orange exactly when the angle in radians is below
    [DEG8], the test of line 193 on the unrounded angle; otherwise the line
    is gray and the label lightgray. *)
Theorem diagnostic_shapes (size : Size) (x y dx dy : R) :
  let src := fst (leading size x y dx dy) in
  let tgt := snd (leading size x y dx dy) in
  exists (a : R) (digits : string),
    diagnosticAngle size x y dx dy = Some a /\
    0 <= toDegrees a <= 180 /\
    JS.toFixed1 (toDegrees a) = Some digits /\
    diagnostic size x y dx dy =
      [ line (vx src) (vy src) (vx tgt) (vy tgt)
          (if JS.ltb a DEG8 then "orange" else "gray") 1 (Some "5,5");
        text ((vx src + vx tgt) / 2) ((vy src + vy tgt) / 2 - 5)
          (Some (digits ++ "°"))
          (if JS.ltb a DEG8 then "orange" else "lightgray");
        line (vx src) (vy src) (vx src + dx * 300) (vy src + dy * 300)
          "lime" 2 None ]%string.
Proof.
  intros src tgt.
  assert (Ha : exists a, diagnosticAngle size x y dx dy = Some a /\ 0 <= a <= PI).
  { unfold diagnosticAngle. destruct (leading size x y dx dy) as [p q].
    rewrite angleBetween_unfold. eexists. split; [ reflexivity | ].
    apply acos_bound. }
  destruct Ha as (a & Ha & Hrange).
  pose proof (toDegrees_bounds a Hrange) as Hdeg.
  destruct (toFixed1_some _ Hdeg) as (digits & Hdigits).
  exists a, digits. split; [ exact Ha | ]. split; [ exact Hdeg | ].
  split; [ exact Hdigits | ].
  unfold diagnostic. rewrite Ha. subst src tgt.
  destruct (leading size x y dx dy) as [p q].
  cbn [fst snd option_map JS.bind]. unfold degreeLabel. rewrite Hdigits.
  reflexivity.
Qed.

(** On course for the corner: when the vector from the chosen vertex to
    the chosen corner is a positive multiple of a velocity that is not
    zero, the dashed line and the label are orange and the label reads
    0.0 degrees. *)
Theorem diagnostic_on_course (size : Size) (x y dx dy k : R) :
  dx <> 0 \/ dy <> 0 ->
  0 < k ->
  vx (snd (leading size x y dx dy)) - vx (fst (leading size x y dx dy)) = k * dx ->
  vy (snd (leading size x y dx dy)) - vy (fst (leading size x y dx dy)) = k * dy ->
  let src := fst (leading size x y dx dy) in
  let tgt := snd (leading size x y dx dy) in
  exists ray : Shape,
    diagnostic size x y dx dy =
      [ line (vx src) (vy src) (vx tgt) (vy tgt) "orange" 1 (Some "5,5");
        text ((vx src + vx tgt) / 2) ((vy src + vy tgt) / 2 - 5)
          (Some "0.0°") "orange";
        ray ]%string.
Proof.
  intros Hd Hk Hx Hy src tgt. subst src tgt.
  assert (Hm : length dx dy <> 0).
  { intro E. apply length_zero_iff in E. tauto. }
  assert (Ha : diagnosticAngle size x y dx dy = Some 0).
  { unfold diagnosticAngle.
    destruct (leading size x y dx dy) as [p q]. cbn [fst snd] in Hx, Hy.
    rewrite Hx, Hy.
    rewrite angleBetween_unfold, unitVector_scale by assumption.
    rewrite unitVector_dot_self by assumption.
    rewrite clamp_inside by lra. rewrite acos_1. reflexivity. }
  assert (Hlabel : degreeLabel (toDegrees 0) = Some "0.0°"%string).
  { unfold degreeLabel. rewrite toFixed1_zero; [ reflexivity | ].
    unfold toDegrees. replace (0 * 180 / PI) with 0; [ lra | ].
    unfold Rdiv. ring. }
  unfold diagnostic. rewrite Ha.
  destruct (leading size x y dx dy) as [p q].
  cbn [fst snd option_map JS.bind]. rewrite Hlabel.
  js_case (JS.ltb 0 DEG8).
  - eexists. reflexivity.
  - pose proof DEG8_pos. lra.
Qed.

(** Moving down and to the right, 100 from both far walls. *)
Lemma diagnostic_on_course_witness :
  0 < 100 /\
  exists ray : Shape,
    diagnostic (mkSize 800 (400 + LOGO_HEIGHT)) 500 300 1 1 =
      [ line (500 + LOGO_WIDTH) (300 + LOGO_HEIGHT) 800 (400 + LOGO_HEIGHT)
          "orange" 1 (Some "5,5");
        text ((500 + LOGO_WIDTH + 800) / 2)
          ((300 + LOGO_HEIGHT + (400 + LOGO_HEIGHT)) / 2 - 5)
          (Some "0.0°") "orange";
        ray ]%string.
Proof.
  assert (Hl : leading (mkSize 800 (400 + LOGO_HEIGHT)) 500 300 1 1 =
               (mkVec (500 + LOGO_WIDTH) (300 + LOGO_HEIGHT),
                mkVec 800 (400 + LOGO_HEIGHT))).
  { unfold leading. js_case (JS.gtb 1 0); [ reflexivity | lra ]. }
  assert (Hd : 1 <> 0 \/ 1 <> 0) by (left; lra).
  assert (Hk : 0 < 100) by lra.
  assert (Hx : vx (snd (leading (mkSize 800 (400 + LOGO_HEIGHT)) 500 300 1 1)) -
               vx (fst (leading (mkSize 800 (400 + LOGO_HEIGHT)) 500 300 1 1))
               = 100 * 1)
    by (rewrite Hl; cbn [fst snd vx]; unfold LOGO_WIDTH; lra).
  assert (Hy : vy (snd (leading (mkSize 800 (400 + LOGO_HEIGHT)) 500 300 1 1)) -
               vy (fst (leading (mkSize 800 (400 + LOGO_HEIGHT)) 500 300 1 1))
               = 100 * 1)
    by (rewrite Hl; cbn [fst snd vy]; lra).
  split; [ exact Hk | ].
  pose proof (diagnostic_on_course (mkSize 800 (400 + LOGO_HEIGHT))
                500 300 1 1 100 Hd Hk Hx Hy) as H.
  cbv zeta in H. rewrite Hl in H. exact H.
Defined.

(** What a tick stores in [debugLines].  With debug on: the three shapes
    of the diagnostic at the stored position and velocity.  With debug
    off: never new shapes; the list is emptied when the list captured by
    the closure is not empty, in particular when that list is the current
    one, and kept otherwise. *)
Theorem debugLines_after_tick (env : Env) (s : State) :
  let s' := fst (animate env s) in
  (debug env = true ->
   debugLines s' =
     diagnostic (containerSize env) (vx (posRef s')) (vy (posRef s'))
                (vx (dirRef s')) (vy (dirRef s')) /\
   List.length (debugLines s') = 3%nat) /\
  (debug env = false ->
   (closureDebugLines env <> [] -> debugLines s' = []) /\
   (closureDebugLines env = [] -> debugLines s' = debugLines s) /\
   (closureDebugLines env = debugLines s -> debugLines s' = [])).
Proof.
  intro s'. subst s'. unfold animate.
  destruct (rebound _ _ _ _) as [[[x y] [dx dy]] bounced].
  cbn [fst posRef dirRef debugLines vx vy].
  split; intro Hdebug; rewrite Hdebug.
  - split; [ reflexivity | apply diagnostic_length ].
  - destruct (closureDebugLines env) as [ | shape shapes ] eqn:Ec.
    + split; [ intro H; contradiction | ].
      split; [ reflexivity | intro H; rewrite <- H; reflexivity ].
    + split; [ reflexivity | ].
      split; [ intro H; discriminate | reflexivity ].
Qed.

(** Debug switched off while the overlay shows shapes: the next tick
    empties it. *)
Lemma debugLines_after_tick_witness :
  debug (mkEnv (mkSize 800 600) false [text 0 0 None "gray"] 0) = false /\
  debugLines
    (fst (animate (mkEnv (mkSize 800 600) false [text 0 0 None "gray"] 0)
            (mkState (mkVec 150 150) (mkVec 1 1) 0 (mkVec 150 150)
                     [text 0 0 None "gray"]))) = [].
Proof.
  assert (H : debug (mkEnv (mkSize 800 600) false [text 0 0 None "gray"] 0) = false)
    by reflexivity.
  split; [ exact H | ].
  exact (proj2 (proj2
           (proj2 (debugLines_after_tick
                     (mkEnv (mkSize 800 600) false [text 0 0 None "gray"] 0)
                     (mkState (mkVec 150 150) (mkVec 1 1) 0 (mkVec 150 150)
                              [text 0 0 None "gray"])) H)) eq_refl).
Defined.

End Overlay.

(** ** The keyboard *)

Section Keys.

Lemma handleKey_c (debug : bool) :
  handleKey "c" debug =
  (debug, [mkConfetti 100 70 (mkOrigin (Some 0.5) (Some 0.5))]).
Proof. reflexivity. Qed.

Lemma handleKey_d (debug : bool) : handleKey "d" debug = (negb debug, []).
Proof. reflexivity. Qed.

Lemma handleKey_other (key : string) (debug : bool) :
  key <> "c"%string -> key <> "d"%string -> handleKey key debug = (debug, []).
Proof.
  intros Hc Hd. unfold handleKey.
  apply String.eqb_neq in Hc, Hd. rewrite Hc, Hd. reflexivity.
Qed.

(** After any sequence of key presses, the debug flag is the initial one
    inverted once per "d" pressed, and the [confetti] calls made are one
    per "c" pressed, each the burst of 100 particles, spread 70, from the
    centre of the viewport.  Every other key, upper-case "C" and "D"
    included, changes nothing. *)
Theorem handleKeys_counts (keys : list string) (debug : bool) :
  fst (handleKeys keys debug) =
    xorb debug (Nat.odd (count_occ string_dec keys "d"%string)) /\
  snd (handleKeys keys debug) =
    repeat (mkConfetti 100 70 (mkOrigin (Some 0.5) (Some 0.5)))
           (count_occ string_dec keys "c"%string).
Proof.
  revert debug. induction keys as [ | key rest IH ]; intro debug.
  - cbn. split; [ destruct debug; reflexivity | reflexivity ].
  - cbn [handleKeys].
    destruct (string_dec key "c") as [-> | Hc];
      [ | destruct (string_dec key "d") as [-> | Hd] ].
    + rewrite handleKey_c.
      destruct (handleKeys rest debug) as [debug2 calls2] eqn:E.
      specialize (IH debug). rewrite E in IH. cbn [fst snd] in IH |- *.
      destruct IH as [IH1 IH2].
      rewrite count_occ_cons_neq by discriminate.
      rewrite count_occ_cons_eq by reflexivity.
      rewrite IH1, IH2. split; reflexivity.
    + rewrite handleKey_d.
      destruct (handleKeys rest (negb debug)) as [debug2 calls2] eqn:E.
      specialize (IH (negb debug)). rewrite E in IH. cbn [fst snd] in IH |- *.
      destruct IH as [IH1 IH2].
      rewrite count_occ_cons_eq by reflexivity.
      rewrite count_occ_cons_neq by discriminate.
      rewrite IH1, IH2. rewrite Nat.odd_succ, <- Nat.negb_odd.
      split; [ | reflexivity ].
      destruct debug; destruct (Nat.odd _); reflexivity.
    + rewrite handleKey_other by assumption.
      destruct (handleKeys rest debug) as [debug2 calls2] eqn:E.
      specialize (IH debug). rewrite E in IH. cbn [fst snd] in IH |- *.
      destruct IH as [IH1 IH2].
      rewrite !count_occ_cons_neq by assumption.
      rewrite IH1, IH2. split; reflexivity.
Qed.

End Keys.
